(** * react-seamless-slider: the InfiniteSlider component

    A shallow embedding of [src/InfiniteSlider.tsx].  JavaScript numbers are
    binary64 floats ([PrimFloat.float]); optional object fields are
    [option]s; the element tree returned by the component is plain data;
    the four [useEffect] bodies are functions on an explicit [World] that
    holds the hook cells, the timer queue, the observers, the preloaded
    images and the custom properties of the track.  The layout the browser
    computes and the [parseFloat] of the host are inputs of the model.

    The first part of the file holds the definitions, the second the
    properties proved about them. *)

From Stdlib Require Import ZArith Bool List Lia.
From Stdlib Require Import Floats.
From stdpp Require Import base option list strings pretty gmap.

Local Open Scope string_scope.
Local Open Scope list_scope.

(** ** JavaScript values *)

Module JS.

(** [number] is an IEEE 754 binary64 value. *)
Definition number : Set := float.

Definition isZero (x : number) : bool :=
  match Prim2SF x with S754_zero _ => true | _ => false end.

Definition isNaN (x : number) : bool :=
  match Prim2SF x with S754_nan => true | _ => false end.

(** [x === y] on numbers: IEEE equality ([NaN] differs from itself,
    the two zeros are equal). *)
Definition strict_eq (x y : number) : bool := PrimFloat.eqb x y.

(** [ToBoolean] on a number: false for [+0], [-0] and [NaN]. *)
Definition truthy (x : number) : bool := negb (isZero x || isNaN x).

Definition lt (x y : number) : bool := PrimFloat.ltb x y.
Definition gt (x y : number) : bool := PrimFloat.ltb y x.

Definition isFinite (x : number) : bool :=
  match Prim2SF x with
  | S754_zero _ | S754_finite _ _ _ => true
  | S754_infinity _ | S754_nan => false
  end.

(** The number denoted by an integer literal or by an array length. *)
Definition of_Z (n : Z) : number :=
  SF2Prim (binary_normalize prec emax n 0 false).
Definition of_nat (n : nat) : number := of_Z (Z.of_nat n).

(** [Math.round]: the integral number closest to [x], ties towards
    [+∞]; non-finite and integral arguments are returned unchanged, and a
    result of zero keeps the sign of [x]. *)
Definition Math_round (x : number) : number :=
  match Prim2SF x with
  | S754_finite s m e =>
      if (0 <=? e)%Z then x
      else
        let den := (2 ^ (- e))%Z in
        let n := ((2 * cond_Zopp s (Zpos m) + den) / (2 * den))%Z in
        if (n =? 0)%Z then (if s then (-0)%float else 0%float)
        else of_Z n
  | _ => x
  end.

(** [ToBoolean] on an optional string: false for [undefined] and [""]. *)
Definition truthy_str (s : option string) : bool :=
  match s with
  | Some (String _ _) => true
  | _ => false
  end.

(** [a || b] where [b] is a string. *)
Definition or_str (a : option string) (b : string) : string :=
  match a with
  | Some (String c r) => String c r
  | _ => b
  end.

End JS.

(** ** Items and props *)

Module SliderItem.
Record t := mk {
  id : option string;
  logo : option string;
  text : option string;
  alt : option string;
  invertDark : option bool;
  className : option string;
}.
End SliderItem.
Abbreviation SliderItem := SliderItem.t.

(** [gap?: number | string] *)
Inductive Gap :=
| GapNumber (n : JS.number)
| GapString (s : string).

Inductive Direction := ltr | rtl.

Record InfiniteSliderProps := {
  items : list SliderItem;
  duration : JS.number;
  gap : Gap;
  pauseOnHover : bool;
  direction : Direction;
  className : string;
  itemClassName : string;
  showGradients : bool;
  speed : JS.number;
  onItemClick : bool;  (* whether a click callback was passed *)
  baseWidth : JS.number;
  lazyLoad : bool;
  rootMargin : string;
}.

(** The destructuring defaults of the component's parameter list. *)
Definition defaultProps (its : list SliderItem) : InfiniteSliderProps := {|
  items := its;
  duration := 30%float;
  gap := GapString "3rem";
  pauseOnHover := true;
  direction := ltr;
  className := "";
  itemClassName := "";
  showGradients := true;
  speed := 1%float;
  onItemClick := false;
  baseWidth := 5000%float;
  lazyLoad := true;
  rootMargin := "50px";
|}.

(** The three [useState] cells. *)
Record State := {
  isVisible : bool;
  shouldLoad : bool;
  imagesLoaded : bool;
}.

Definition initialState : State :=
  {| isVisible := false; shouldLoad := false; imagesLoaded := false |}.

Definition setIsVisible (b : bool) (st : State) : State :=
  {| isVisible := b; shouldLoad := shouldLoad st; imagesLoaded := imagesLoaded st |}.
Definition setShouldLoad (b : bool) (st : State) : State :=
  {| isVisible := isVisible st; shouldLoad := b; imagesLoaded := imagesLoaded st |}.
Definition setImagesLoaded (b : bool) (st : State) : State :=
  {| isVisible := isVisible st; shouldLoad := shouldLoad st; imagesLoaded := b |}.

(** ** The rendered track (lines 317-356) *)

Inductive Child :=
| Img (src alt cls : string)
| LogoPlaceholder (cls : string)
| TextSpan (body : string).

Record ItemElement := {
  key : string;
  elClassName : string;
  onClick : SliderItem * nat;  (* the [(item, i)] the click handler captures *)
  cursor : string;
  content : list Child;
}.

Definition invertClass (item : SliderItem) : string :=
  match SliderItem.invertDark item with
  | Some true => "infinite-slider-invert-dark"
  | _ => ""
  end.

(** [`${i}-${copyIndex}`] *)
Definition positionalKey (i copyIndex : nat) : string :=
  pretty i +:+ "-" +:+ pretty copyIndex.

Definition itemKey (item : SliderItem) (i copyIndex : nat) : string :=
  JS.or_str (SliderItem.id item) (positionalKey i copyIndex).

Definition renderContent (st : State) (item : SliderItem) : list Child :=
  let hasLogo := JS.truthy_str (SliderItem.logo item) in
  let hasText := JS.truthy_str (SliderItem.text item) in
  (if shouldLoad st && hasLogo
   then [Img (default "" (SliderItem.logo item))
             (JS.or_str (SliderItem.alt item) (JS.or_str (SliderItem.text item) ""))
             ("infinite-slider-logo " +:+ invertClass item)]
   else [])
  ++ (if negb (shouldLoad st) && hasLogo
      then [LogoPlaceholder ("infinite-slider-logo-placeholder " +:+ invertClass item)]
      else [])
  ++ (if hasText then [TextSpan (default "" (SliderItem.text item))] else []).

Definition renderItem (p : InfiniteSliderProps) (st : State)
    (copyIndex i : nat) (item : SliderItem) : ItemElement := {|
  key := itemKey item i copyIndex;
  elClassName :=
    "infinite-slider-item " +:+ itemClassName p +:+ " "
      +:+ JS.or_str (SliderItem.className item) "";
  onClick := (item, i);
  cursor := if onItemClick p then "pointer" else "default";
  content := renderContent st item;
|}.

(** [Array.from({ length: 2 }).map((_, copyIndex) => items.map(...))] *)
Definition renderCopies (p : InfiniteSliderProps) (st : State)
    : list (list ItemElement) :=
  (λ copyIndex, imap (renderItem p st copyIndex) (items p)) <$> seq 0 2.

(** The children of the track, in document order. *)
Definition renderBuffer (p : InfiniteSliderProps) (st : State) : list ItemElement :=
  concat (renderCopies p st).

(** An element with its key taken away: what the two halves must share. *)
Definition unkeyed (e : ItemElement) : string * (SliderItem * nat) * string * list Child :=
  (elClassName e, onClick e, cursor e, content e).

(** ** The host: layout, timers, observers, the track's style *)

(** What the component reads from a child of the track.  The DOM delivers
    integral values; the model admits any number. *)
Record HTMLElement := {
  offsetLeft : JS.number;
  offsetWidth : JS.number;
}.

Global Instance HTMLElement_inhabited : Inhabited HTMLElement :=
  populate {| offsetLeft := nan; offsetWidth := nan |}.

(** The live layout of the track at the moment a callback runs:
    [container.children] and [getComputedStyle(container).gap]. *)
Record Layout := {
  children : list HTMLElement;
  computedGap : option string;
}.

(** The host the effects run in.  [hasWindow] is
    [typeof window !== "undefined"].  [acceptsRootMargin] tells whether the
    [IntersectionObserver] constructor of the host takes a string as
    [rootMargin] (the platform wants lengths in pixels or percent); given
    any other string it throws. *)
Record Host := {
  hasWindow : bool;
  acceptsRootMargin : string → bool;
}.

(** A value given to [style.setProperty]: the number of the template
    literal with its unit. *)
Inductive CssValue :=
| Px (x : JS.number)
| Seconds (x : JS.number).

(** Callbacks handed to [setTimeout] and [requestAnimationFrame].  The
    closures of the animation effect capture the props of their render. *)
Inductive Task :=
| TSetShouldLoad
| TSetupAnimation (p : InfiniteSliderProps)
| TCalculateAndSetWidth (p : InfiniteSliderProps)
| TAddReadyClass.

Record Observer := {
  obsRootMargin : string;
  observing : bool;   (* [observe(element)] was called *)
  connected : bool;   (* not yet [disconnect()]ed *)
}.

(** The closure of one run of the preloading effect. *)
Record Loader := {
  totalImages : nat;
  loadedCount : nat;
}.

Record World := {
  hooks : State;
  committed : option (list ItemElement);   (* the track's rendered children *)
  console : list (string * list SliderItem);
  observers : list Observer;
  images : list string;                    (* [src] of each preload [img] *)
  loaders : list Loader;
  timers : list (nat * Task);              (* pending [setTimeout]s, oldest first,
                                              each with the time left until it is due *)
  frames : list Task;                      (* pending animation-frame callbacks *)
  resizeListeners : list InfiniteSliderProps;
  style : gmap string CssValue;            (* custom properties of the track *)
  classList : gset string;
}.

Definition emptyWorld : World := {|
  hooks := initialState;
  committed := None;
  console := [];
  observers := [];
  images := [];
  loaders := [];
  timers := [];
  frames := [];
  resizeListeners := [];
  style := ∅;
  classList := ∅;
|}.

Definition withHooks (f : State → State) (w : World) : World :=
  {| hooks := f (hooks w); committed := committed w; console := console w;
     observers := observers w; images := images w; loaders := loaders w;
     timers := timers w; frames := frames w;
     resizeListeners := resizeListeners w; style := style w;
     classList := classList w |}.

Definition withCommitted (c : option (list ItemElement)) (w : World) : World :=
  {| hooks := hooks w; committed := c; console := console w;
     observers := observers w; images := images w; loaders := loaders w;
     timers := timers w; frames := frames w;
     resizeListeners := resizeListeners w; style := style w;
     classList := classList w |}.

Definition consoleError (msg : string) (arg : list SliderItem) (w : World) : World :=
  {| hooks := hooks w; committed := committed w;
     console := console w ++ [(msg, arg)];
     observers := observers w; images := images w; loaders := loaders w;
     timers := timers w; frames := frames w;
     resizeListeners := resizeListeners w; style := style w;
     classList := classList w |}.

Definition withObservers (f : list Observer → list Observer) (w : World) : World :=
  {| hooks := hooks w; committed := committed w; console := console w;
     observers := f (observers w); images := images w; loaders := loaders w;
     timers := timers w; frames := frames w;
     resizeListeners := resizeListeners w; style := style w;
     classList := classList w |}.

Definition withPreload (imgs : list string) (f : list Loader → list Loader)
    (w : World) : World :=
  {| hooks := hooks w; committed := committed w; console := console w;
     observers := observers w; images := images w ++ imgs;
     loaders := f (loaders w);
     timers := timers w; frames := frames w;
     resizeListeners := resizeListeners w; style := style w;
     classList := classList w |}.

Definition withTimers (f : list (nat * Task) → list (nat * Task)) (w : World) : World :=
  {| hooks := hooks w; committed := committed w; console := console w;
     observers := observers w; images := images w; loaders := loaders w;
     timers := f (timers w); frames := frames w;
     resizeListeners := resizeListeners w; style := style w;
     classList := classList w |}.

Definition setTimeout (t : Task) (ms : nat) (w : World) : World :=
  withTimers (λ q, q ++ [(ms, t)]) w.

Definition withFrames (f : list Task → list Task) (w : World) : World :=
  {| hooks := hooks w; committed := committed w; console := console w;
     observers := observers w; images := images w; loaders := loaders w;
     timers := timers w; frames := f (frames w);
     resizeListeners := resizeListeners w; style := style w;
     classList := classList w |}.

Definition requestAnimationFrame (t : Task) (w : World) : World :=
  withFrames (λ q, q ++ [t]) w.

Definition addResizeListener (p : InfiniteSliderProps) (w : World) : World :=
  {| hooks := hooks w; committed := committed w; console := console w;
     observers := observers w; images := images w; loaders := loaders w;
     timers := timers w; frames := frames w;
     resizeListeners := resizeListeners w ++ [p]; style := style w;
     classList := classList w |}.

Definition setProperty (name : string) (v : CssValue) (w : World) : World :=
  {| hooks := hooks w; committed := committed w; console := console w;
     observers := observers w; images := images w; loaders := loaders w;
     timers := timers w; frames := frames w;
     resizeListeners := resizeListeners w; style := <[name := v]> (style w);
     classList := classList w |}.

Definition withClassList (f : gset string → gset string) (w : World) : World :=
  {| hooks := hooks w; committed := committed w; console := console w;
     observers := observers w; images := images w; loaders := loaders w;
     timers := timers w; frames := frames w;
     resizeListeners := resizeListeners w; style := style w;
     classList := f (classList w) |}.

(** The result of running effect code: it returns, or it throws. *)
Inductive Outcome :=
| Completed (w : World)
| Threw (message : string) (w : World).

Definition andThen (o : Outcome) (k : World → Outcome) : Outcome :=
  match o with
  | Completed w => k w
  | Threw e w => Threw e w
  end.

Notation "o >>> k" := (andThen o k) (at level 50, left associativity).

(** ** Effect 1: validation of the items (lines 97-108) *)

Definition isInvalid (item : SliderItem) : bool :=
  negb (JS.truthy_str (SliderItem.logo item))
  && negb (JS.truthy_str (SliderItem.text item)).

Definition invalidItems (its : list SliderItem) : list SliderItem :=
  List.filter isInvalid its.

Definition validationLog (n : nat) : string :=
  "InfiniteSlider: " +:+ pretty n
  +:+ " item(s) are missing both logo and text. At least one is required.".

Definition validationError : string :=
  "InfiniteSlider: All items must have either a logo or text property.".

Definition validateItems (p : InfiniteSliderProps) (w : World) : Outcome :=
  let bad := invalidItems (items p) in
  if (0 <? length bad)%nat
  then Threw validationError (consoleError (validationLog (length bad)) bad w)
  else Completed w.

(** ** Effect 2: the visibility gate (lines 111-140) *)

Definition newObserver (p : InfiniteSliderProps) (w : World) : Observer := {|
  obsRootMargin := rootMargin p;
  observing := bool_decide (is_Some (committed w));  (* [getElementById] found the root *)
  connected := true;
|}.

(** The exception of [new IntersectionObserver(callback, { rootMargin })]
    for a margin the host does not accept: a [SyntaxError], with a message
    of the host's. *)
Definition rootMarginError : string := "SyntaxError".

Definition visibilityGate (p : InfiniteSliderProps) (h : Host) (w : World) : Outcome :=
  if negb (lazyLoad p)
  then Completed (withHooks (setShouldLoad true) (withHooks (setIsVisible true) w))
  else if negb (hasWindow h) then Completed w
  else if negb (acceptsRootMargin h (rootMargin p)) then Threw rootMarginError w
  else Completed (withObservers (λ os, os ++ [newObserver p w]) w).

Definition disconnect (o : Observer) : Observer :=
  {| obsRootMargin := obsRootMargin o; observing := false; connected := false |}.

(** The observer's callback, for the [k]-th observer and the
    [isIntersecting] flags of its entries. *)
Definition onIntersection (k : nat) (entries : list bool) (w : World) : World :=
  fold_left
    (λ w (isIntersecting : bool),
       if isIntersecting
       then withObservers (alter disconnect k)
              (setTimeout TSetShouldLoad 100 (withHooks (setIsVisible true) w))
       else w)
    entries w.

(** ** Effect 3: preloading the images (lines 143-175) *)

(** [new Set(...)] followed by [Array.from]: first occurrences, in order. *)
Definition setAdd (acc : list string) (x : string) : list string :=
  if bool_decide (x ∈ acc) then acc else acc ++ [x].

Definition arrayFromSet (l : list string) : list string :=
  fold_left setAdd l [].

(** [items.map((item) => item.logo).filter(Boolean)] *)
Definition logos (its : list SliderItem) : list string :=
  omap (λ item, if JS.truthy_str (SliderItem.logo item)
                then SliderItem.logo item else None) its.

Definition imageUrls (its : list SliderItem) : list string :=
  arrayFromSet (logos its).

Definition withLoaders (f : list Loader → list Loader) (w : World) : World :=
  withPreload [] f w.

Definition preloadImages (p : InfiniteSliderProps) (st : State) (h : Host)
    (w : World) : World :=
  if negb (shouldLoad st) then w
  else if negb (hasWindow h) then w
  else
    let urls := imageUrls (items p) in
    if (length urls =? 0)%nat then withHooks (setImagesLoaded true) w
    else withPreload urls
           (λ ls, ls ++ [{| totalImages := length urls; loadedCount := 0 |}]) w.

(** [checkAllLoaded] of the [k]-th run of the effect. *)
Definition checkAllLoaded (k : nat) (w : World) : World :=
  match loaders w !! k with
  | None => w
  | Some l =>
      let l' := {| totalImages := totalImages l; loadedCount := S (loadedCount l) |} in
      let w' := withLoaders (<[k := l']>) w in
      if (loadedCount l' =? totalImages l')%nat
      then withHooks (setImagesLoaded true) w'
      else w'
  end.

Inductive ImageEvent := onload | onerror.

(** Both handlers of a preload image are [checkAllLoaded]. *)
Definition imageSettled (k : nat) (url : string) (ev : ImageEvent) (w : World) : World :=
  match ev with
  | onload => checkAllLoaded k w
  | onerror => checkAllLoaded k w
  end.

(** ** Effect 4: measuring the track and publishing the animation
       parameters (lines 178-285) *)

Definition readyClass : string := "infinite-slider-ready".

Definition setupAnimation (p : InfiniteSliderProps) (l : Layout) (w : World) : World :=
  if (length (children l) =? 0)%nat
  then setTimeout (TSetupAnimation p) 50 w
  else setTimeout (TCalculateAndSetWidth p) 100 w.

Definition handleResize (p : InfiniteSliderProps) (w : World) : World :=
  setTimeout (TSetupAnimation p) 100 (withClassList (λ c, c ∖ {[readyClass]}) w).

Definition animationEffect (p : InfiniteSliderProps) (st : State) (h : Host)
    (l : Layout) (w : World) : World :=
  if negb (bool_decide (is_Some (committed w)))
     || negb (shouldLoad st) || negb (imagesLoaded st)
  then w
  else if negb (hasWindow h) then w
  else addResizeListener p (setupAnimation p l w).

Definition scrollDuration (halfTotalWidth baseWidth duration speed : JS.number)
    : JS.number :=
  (halfTotalWidth / baseWidth * duration * speed)%float.

(** The condition of the final fallback (line 236). *)
Definition needsManual (halfTotalWidth : JS.number) : bool :=
  JS.strict_eq halfTotalWidth 0%float
  || negb (JS.truthy halfTotalWidth)
  || JS.lt halfTotalWidth 100%float.

Section Measurement.

(** The host's [parseFloat]. *)
Variable parseFloat : string → JS.number.

(** Lines 224-230 and, again, 237-243. *)
Definition gapPx (l : Layout) (g : Gap) : JS.number :=
  if JS.truthy_str (computedGap l)
  then parseFloat (default "" (computedGap l))
  else match g with
       | GapNumber n => n
       | GapString _ => 48%float
       end.

(** Line 212: from the first item to the first item of the second set. *)
Definition primaryWidth (els : list HTMLElement) (itemsPerSet : nat) : JS.number :=
  (offsetLeft (els !!! itemsPerSet) - offsetLeft (els !!! 0%nat))%float.

(** Lines 215-232: the first set, plus one gap. *)
Definition secondaryWidth (els : list HTMLElement) (itemsPerSet : nat)
    (gap_px : JS.number) : JS.number :=
  let lastItemOfFirstSet := els !!! pred itemsPerSet in
  let lastItemRight :=
    (offsetLeft lastItemOfFirstSet + offsetWidth lastItemOfFirstSet)%float in
  (lastItemRight - offsetLeft (els !!! 0%nat) + gap_px)%float.

(** Lines 204-233. *)
Definition measuredWidth (p : InfiniteSliderProps) (l : Layout) : JS.number :=
  let els := children l in
  let itemsPerSet := length (items p) in
  if (itemsPerSet * 2 <=? length els)%nat then primaryWidth els itemsPerSet
  else if (itemsPerSet <=? length els)%nat
       then secondaryWidth els itemsPerSet (gapPx l (gap p))
       else 0%float.

(** Lines 245-249: the widths of one set, plus the gaps between them. *)
Definition manualWidth (p : InfiniteSliderProps) (l : Layout) : JS.number :=
  let itemsPerSet := length (items p) in
  let widths :=
    fold_left (λ acc e, (acc + offsetWidth e)%float)
              (take itemsPerSet (children l)) 0%float in
  (widths + gapPx l (gap p) * JS.of_Z (Z.of_nat itemsPerSet - 1))%float.

(** The value of [halfTotalWidth] at line 252. *)
Definition halfTotalWidth (p : InfiniteSliderProps) (l : Layout) : JS.number :=
  let measured := measuredWidth p l in
  if needsManual measured then manualWidth p l else measured.

Definition calculateAndSetWidth (p : InfiniteSliderProps) (l : Layout)
    (w : World) : World :=
  if (length (children l) =? 0)%nat then w
  else
    let width := halfTotalWidth p l in
    if JS.gt width 0%float then
      let rounded := JS.Math_round width in
      requestAnimationFrame TAddReadyClass
        (setProperty "--scroll-duration"
           (Seconds (scrollDuration rounded (baseWidth p) (duration p) (speed p)))
           (setProperty "--total-width" (Px rounded) w))
    else w.

(** ** The event loop *)

Definition fire (t : Task) (l : Layout) (w : World) : World :=
  match t with
  | TSetShouldLoad => withHooks (setShouldLoad true) w
  | TSetupAnimation p => setupAnimation p l w
  | TCalculateAndSetWidth p => calculateAndSetWidth p l w
  | TAddReadyClass => withClassList (λ c, c ∪ {[readyClass]}) w
  end.

(** The timer the host runs next, with its position in the queue: the one
    with the least time left and, of several such, the one registered
    first. *)
Fixpoint dueFirst (q : list (nat * Task)) : option (nat * (nat * Task)) :=
  match q with
  | [] => None
  | (ms, t) :: rest =>
      match dueFirst rest with
      | Some (i, (ms', t')) =>
          if (ms' <? ms)%nat then Some (S i, (ms', t')) else Some (0%nat, (ms, t))
      | None => Some (0%nat, (ms, t))
      end
  end.

(** Time passes: every pending timer is that much closer to being due. *)
Definition elapse (d : nat) (q : list (nat * Task)) : list (nat * Task) :=
  prod_map (λ ms, ms - d)%nat id <$> q.

(** The host waits until the next timer is due and runs it; the callback
    sees the layout [l].  Nothing else happens in between. *)
Definition tick (l : Layout) (w : World) : World :=
  match dueFirst (timers w) with
  | None => w
  | Some (i, (ms, t)) => fire t l (withTimers (λ q, elapse ms (delete i q)) w)
  end.

(** The oldest pending animation-frame callback runs. *)
Definition paint (l : Layout) (w : World) : World :=
  match frames w with
  | [] => w
  | t :: rest => fire t l (withFrames (λ _, rest) w)
  end.

(** [n] timer firings; the [k]-th of them sees the layout [layouts k]. *)
Fixpoint run (n : nat) (layouts : nat → Layout) (k : nat) (w : World) : World :=
  match n with
  | O => w
  | S n' => run n' layouts (S k) (tick (layouts k) w)
  end.

(** ** Mounting: the first render is committed, then the effects run in
       the order of their declaration.  They read the state their render
       closed over; an effect that throws ends the pass. *)

Definition runEffects (p : InfiniteSliderProps) (st : State) (h : Host)
    (l : Layout) (w : World) : Outcome :=
  validateItems p w
  >>> visibilityGate p h
  >>> (λ w, Completed (preloadImages p st h w))
  >>> (λ w, Completed (animationEffect p st h l w)).

Definition mount (p : InfiniteSliderProps) (h : Host) (l : Layout) : Outcome :=
  runEffects p initialState h l
    (withCommitted (Some (renderBuffer p initialState)) emptyWorld).

(** Everything that can happen to a mounted component: an effect runs
    (on mount, or again when its dependencies change), or the host delivers
    an event.  Events arrive at any time, so any pending timer can be the
    next one to run, and the time left on the others is then whatever it
    is. *)
Inductive step : World → World → Prop :=
| step_validate p w w' : validateItems p w = Completed w' → step w w'
| step_gate p h w w' : visibilityGate p h w = Completed w' → step w w'
| step_preload p st h w : step w (preloadImages p st h w)
| step_animation p st h l w : step w (animationEffect p st h l w)
| step_intersection k entries w : step w (onIntersection k entries w)
| step_image k url ev w : step w (imageSettled k url ev w)
| step_timer i ms t q l w :
    timers w !! i = Some (ms, t) → q.*2 = (delete i (timers w)).*2 →
    step w (fire t l (withTimers (λ _, q) w))
| step_frame l w : step w (paint l w)
| step_resize p w : p ∈ resizeListeners w → step w (handleResize p w)
| step_commit c w : step w (withCommitted c w).

End Measurement.

(** ** Notions used in the statements *)

(** What the failed validation leaves behind: the world it started from,
    with one more line on the console. *)
Definition rejected (p : InfiniteSliderProps) (w : World) : World :=
  let bad := invalidItems (items p) in
  consoleError (validationLog (length bad)) bad w.

(** The completion events of the preload images of run [k], in the order
    in which the host delivers them. *)
Definition settleAll (k : nat) (evs : list (string * ImageEvent)) (w : World) : World :=
  fold_left (λ w ev, imageSettled k ev.1 ev.2 w) evs w.

(** Asset readiness. *)
Definition ready (w : World) : Prop := imagesLoaded (hooks w) = true.

(** The polling of [setupAnimation]: the call made by the effect sees
    [layouts 0], the [k]-th timer firing after it sees [layouts k]. *)
Definition poll (parseFloat : string → JS.number) (p : InfiniteSliderProps)
    (layouts : nat → Layout) (n : nat) (w : World) : World :=
  run parseFloat n layouts 1 (setupAnimation p (layouts 0%nat) w).

(** A retry of [setupAnimation] is pending. *)
Definition retryPending (p : InfiniteSliderProps) (w : World) : Prop :=
  (50%nat, TSetupAnimation p) ∈ timers w.

(** The [--scroll-duration] the measurement publishes for the props [p]. *)
Definition publishedDuration (parseFloat : string → JS.number)
    (p : InfiniteSliderProps) (l : Layout) (w : World) : option CssValue :=
  style (calculateAndSetWidth parseFloat p l w) !! "--scroll-duration".

(** Infinite or [NaN], on the specification side of a number. *)
Definition nonFinite (y : spec_float) : Prop :=
  match y with
  | S754_infinity _ | S754_nan => True
  | _ => False
  end.

(** A finite number whose exponent is neither the least one nor the
    greatest: its magnitude lies in [2^-1021, 2^1023), so that doubling it
    neither leaves the subnormal range nor overflows. *)
Definition inNormalRange (x : JS.number) : bool :=
  match Prim2SF x with
  | S754_finite _ _ e => (-1074 <? e)%Z && (e <? 971)%Z
  | _ => false
  end.

(** The second rounding step of [binary_round_aux] and its final range
    check, for a mantissa [m2] at exponent [e1]. *)
Definition finish (s : bool) (m2 e1 : Z) : spec_float :=
  let '(mrs, e2) := shr_fexp prec emax m2 e1 loc_Exact in
  match shr_m mrs with
  | Z0 => S754_zero s
  | Zpos m =>
      if (e2 <=? emax - prec)%Z then S754_finite s m e2 else S754_infinity s
  | Zneg _ => S754_nan
  end.

(** ** Props with one setting replaced *)

Definition withBaseWidth (b : JS.number) (p : InfiniteSliderProps)
    : InfiniteSliderProps := {|
  items := items p; duration := duration p; gap := gap p;
  pauseOnHover := pauseOnHover p; direction := direction p;
  className := className p; itemClassName := itemClassName p;
  showGradients := showGradients p; speed := speed p;
  onItemClick := onItemClick p; baseWidth := b;
  lazyLoad := lazyLoad p; rootMargin := rootMargin p;
|}.

Definition withGap (g : Gap) (p : InfiniteSliderProps) : InfiniteSliderProps := {|
  items := items p; duration := duration p; gap := g;
  pauseOnHover := pauseOnHover p; direction := direction p;
  className := className p; itemClassName := itemClassName p;
  showGradients := showGradients p; speed := speed p;
  onItemClick := onItemClick p; baseWidth := baseWidth p;
  lazyLoad := lazyLoad p; rootMargin := rootMargin p;
|}.

Definition withTiming (d s : JS.number) (p : InfiniteSliderProps)
    : InfiniteSliderProps := {|
  items := items p; duration := d; gap := gap p;
  pauseOnHover := pauseOnHover p; direction := direction p;
  className := className p; itemClassName := itemClassName p;
  showGradients := showGradients p; speed := s;
  onItemClick := onItemClick p; baseWidth := baseWidth p;
  lazyLoad := lazyLoad p; rootMargin := rootMargin p;
|}.

(** ** Sample inputs *)

Definition emptyItem : SliderItem :=
  SliderItem.mk None None None None None None.

Definition textItem (s : string) : SliderItem :=
  SliderItem.mk None None (Some s) None None None.

Definition logoItem (url : string) : SliderItem :=
  SliderItem.mk None (Some url) None None None None.

Definition withId (i s : string) : SliderItem :=
  SliderItem.mk (Some i) None (Some s) None None None.

Definition box (left width : JS.number) : HTMLElement :=
  {| offsetLeft := left; offsetWidth := width |}.

(** A root margin of one length: digits (the characters 48 to 57), then
    [px] or [%]. *)
Fixpoint isLength (seen : bool) (s : string) : bool :=
  match s with
  | EmptyString => false
  | String c r =>
      if (48 <=? Ascii.nat_of_ascii c)%nat && (Ascii.nat_of_ascii c <=? 57)%nat then isLength true r
      else seen && (String.eqb s "px" || String.eqb s "%")
  end.

(** A browser, as far as the scenarios need one: of the root margins it
    takes those of a single length. *)
Definition browser : Host :=
  {| hasWindow := true; acceptsRootMargin := isLength false |}.

(** A server has no [IntersectionObserver] to give a margin to. *)
Definition serverHost : Host :=
  {| hasWindow := false; acceptsRootMargin := λ _, false |}.

(** The state once the gate is active and before the images are ready. *)
Definition activeState : State :=
  {| isVisible := true; shouldLoad := true; imagesLoaded := false |}.

(** The state of a later render, the images of an earlier sequence done. *)
Definition readyState : State :=
  {| isVisible := true; shouldLoad := true; imagesLoaded := true |}.

(** A [parseFloat] for runs in which no gap string is parsed. *)
Definition unusedParseFloat (s : string) : JS.number := nan.

(** The scenario of the specification: three text items, each 352px wide,
    48px apart, rendered twice. *)
Definition abc : InfiniteSliderProps :=
  defaultProps [textItem "A"; textItem "B"; textItem "C"].

Definition abcLayout : Layout := {|
  children := [box 0 352; box 400 352; box 800 352;
               box 1200 352; box 1600 352; box 2000 352]%float;
  computedGap := Some "48px";
|}.

(** What the scenario publishes: 8106479329266892 * 2^-50, the number
    JavaScript prints as 7.199999999999999. *)
Definition scenarioDuration : JS.number := 0x1.cccccccccccccp+2%float.

(** The binary64 number nearest to 7.2: 8106479329266893 * 2^-50. *)
Definition nearest_7_2 : JS.number := 0x1.ccccccccccccdp+2%float.

(** A track showing a single copy of one item, in a host without a
    computed [gap], and a caller who passes an infinite gap. *)
Definition singleCopyLayout : Layout := {|
  children := [box 0 100]%float;
  computedGap := None;
|}.

Definition infiniteGapProps : InfiniteSliderProps :=
  withGap (GapNumber infinity) (defaultProps [textItem "A"]).

(** A track without children, as an empty item list renders it. *)
Definition noChildren : Layout := {| children := []; computedGap := None |}.


(** ** Further notions used in the statements *)

Definition hasLogo (item : SliderItem) : bool :=
  JS.truthy_str (SliderItem.logo item).

Definition hasText (item : SliderItem) : bool :=
  JS.truthy_str (SliderItem.text item).

Definition isImg (c : Child) : bool :=
  match c with Img _ _ _ => true | _ => false end.

Definition isPlaceholder (c : Child) : bool :=
  match c with LogoPlaceholder _ => true | _ => false end.

(** Both animation parameters are set on the track. *)
Definition published (w : World) : Prop :=
  is_Some (style w !! "--total-width")
  ∧ is_Some (style w !! "--scroll-duration").

(** No timer carries the callback that marks the animation ready, and
    wherever that mark is set or about to be set the parameters are
    there. *)
Definition readyInvariant (w : World) : Prop :=
  (∀ ms t, (ms, t) ∈ timers w → t ≠ TAddReadyClass)
  ∧ (readyClass ∈ classList w ∨ TAddReadyClass ∈ frames w → published w).

(** A resize and what follows it while the layout stays [l]: the handler,
    the two timers it leads to, and the animation frame. *)
Definition settleTimers (parseFloat : string → JS.number) (p : InfiniteSliderProps)
    (l : Layout) (w : World) : World :=
  tick parseFloat l (tick parseFloat l (handleResize p w)).

Definition resizeCycle (parseFloat : string → JS.number) (p : InfiniteSliderProps)
    (l : Layout) (w : World) : World :=
  paint parseFloat l (settleTimers parseFloat p l w).

(** The cleanup of the animation effect (lines 282-284): it removes the
    resize listener the run registered, here the [i]-th one. *)
Definition animationCleanup (i : nat) (w : World) : World :=
  {| hooks := hooks w; committed := committed w; console := console w;
     observers := observers w; images := images w; loaders := loaders w;
     timers := timers w; frames := frames w;
     resizeListeners := delete i (resizeListeners w); style := style w;
     classList := classList w |}.

(** The scenario run to the end: committed, measured 100ms after the
    animation effect, marked ready on the next frame. *)
Definition abcCommitted : World :=
  withCommitted (Some (renderBuffer abc readyState)) emptyWorld.

Definition abcRunning : World :=
  paint unusedParseFloat abcLayout
    (tick unusedParseFloat abcLayout
       (animationEffect abc readyState browser abcLayout abcCommitted)).

(** A layout whose children have collapsed to no width at all. *)
Definition collapsedLayout : Layout := {|
  children := [box 0 0; box 0 0; box 0 0; box 0 0; box 0 0; box 0 0]%float;
  computedGap := Some "0px";
|}.

(** A [parseFloat] that knows the one string it is asked about. *)
Definition parseZeroPx (s : string) : JS.number :=
  if String.eqb s "0px" then 0%float else nan.

(** The scenario right after mounting in a browser: the observer is armed. *)
Definition abcMounted : World :=
  withObservers (λ os, os ++ [{| obsRootMargin := "50px"; observing := true;
                                 connected := true |}])
    (withCommitted (Some (renderBuffer abc initialState)) emptyWorld).

Definition withLazyLoad (b : bool) (p : InfiniteSliderProps) : InfiniteSliderProps := {|
  items := items p; duration := duration p; gap := gap p;
  pauseOnHover := pauseOnHover p; direction := direction p;
  className := className p; itemClassName := itemClassName p;
  showGradients := showGradients p; speed := speed p;
  onItemClick := onItemClick p; baseWidth := baseWidth p;
  lazyLoad := b; rootMargin := rootMargin p;
|}.


(** The cleanup of the gate effect (line 139): [observer.disconnect()] on
    the observer its run created, here the [k]-th one. *)
Definition gateCleanup (k : nat) (w : World) : World :=
  withObservers (alter disconnect k) w.

(** A later render: the tree of the current state replaces the committed
    one.  The effects of that pass read [hooks w] as it is now. *)
Definition rerender (p : InfiniteSliderProps) (w : World) : World :=
  withCommitted (Some (renderBuffer p (hooks w))) w.

(** Children without any width, an eighth of a pixel apart. *)
Definition tinyLayout : Layout := {|
  children := [box 0 0; box 0 0; box 0 0; box 0 0; box 0 0; box 0 0]%float;
  computedGap := Some "0.125px";
|}.

Definition parseEighthPx (s : string) : JS.number :=
  if String.eqb s "0.125px" then 0.125%float else nan.

(** A narrow track whose computed gap is the keyword [normal]. *)
Definition narrowLayout : Layout := {|
  children := [box 0 20; box 20 20; box 40 20;
               box 60 20; box 80 20; box 100 20]%float;
  computedGap := Some "normal";
|}.

Definition withRootMargin (m : string) (p : InfiniteSliderProps) : InfiniteSliderProps := {|
  items := items p; duration := duration p; gap := gap p;
  pauseOnHover := pauseOnHover p; direction := direction p;
  className := className p; itemClassName := itemClassName p;
  showGradients := showGradients p; speed := speed p;
  onItemClick := onItemClick p; baseWidth := baseWidth p;
  lazyLoad := lazyLoad p; rootMargin := m;
|}.

(** The scenario measured and waiting for its frame: the ready class is
    about to be added. *)
Definition abcMeasured : World :=
  tick unusedParseFloat abcLayout
    (animationEffect abc readyState browser abcLayout abcCommitted).
(** * Properties *)

(** ** The render buffer *)

Section RenderBuffer.

Variables (p : InfiniteSliderProps) (st : State).

Lemma renderBuffer_app :
  renderBuffer p st =
    imap (renderItem p st 0) (items p) ++ imap (renderItem p st 1) (items p).
Proof.
  unfold renderBuffer, renderCopies. simpl. by rewrite app_nil_r.
Qed.

Lemma copy_items (copyIndex : nat) (l : list SliderItem) :
  (fst ∘ onClick) <$> imap (renderItem p st copyIndex) l = l.
Proof.
  rewrite fmap_imap.
  rewrite (imap_ext _ (const id)) by done.
  by rewrite imap_const, list_fmap_id.
Qed.

Lemma copy_unkeyed (c c' : nat) (l : list SliderItem) :
  unkeyed <$> imap (renderItem p st c) l = unkeyed <$> imap (renderItem p st c') l.
Proof.
  rewrite !fmap_imap. by apply imap_ext.
Qed.

Lemma positionalKey_copy_ne (i : nat) : positionalKey i 0 ≠ positionalKey i 1.
Proof.
  unfold positionalKey. intros H.
  apply (inj (String.app (pretty i))) in H. discriminate H.
Qed.

End RenderBuffer.

(** C1, as amended.  The track's children are the items rendered once with
    copy index 0 and once more with copy index 1: the same items in the same
    order, with the same class names, handlers, cursor and content in both
    halves.  An item without a usable [id] gets the keys [i-0] and [i-1],
    which differ, and only in the copy index; an item with a non-empty [id]
    gets that [id] as its key in both halves. *)
Theorem render_buffer_is_doubled (p : InfiniteSliderProps) (st : State) :
  let n := length (items p) in
  let buf := renderBuffer p st in
  (fst ∘ onClick) <$> buf = items p ++ items p
  ∧ unkeyed <$> take n buf = unkeyed <$> drop n buf
  ∧ ∀ (i : nat) (item : SliderItem), items p !! i = Some item →
      ∃ e0 e1 : ItemElement,
        buf !! i = Some e0 ∧ buf !! (n + i)%nat = Some e1
        ∧ if JS.truthy_str (SliderItem.id item)
          then key e0 = default "" (SliderItem.id item) ∧ key e1 = key e0
          else key e0 = pretty i +:+ "-0" ∧ key e1 = pretty i +:+ "-1"
               ∧ key e0 ≠ key e1.
Proof.
  intros n buf. subst buf. rewrite renderBuffer_app.
  assert (Hlen : ∀ c, length (imap (renderItem p st c) (items p)) = n)
    by (intros c; apply length_imap).
  split; [|split].
  - by rewrite fmap_app, !copy_items.
  - rewrite <- (Hlen 0%nat) at 1 2.
    rewrite take_app_length, drop_app_length. apply copy_unkeyed.
  - intros i item Hi.
    exists (renderItem p st 0 i item), (renderItem p st 1 i item).
    split; [|split].
    + rewrite lookup_app_l by (rewrite Hlen; by eapply lookup_lt_Some).
      by rewrite list_lookup_imap, Hi.
    + rewrite <- (Hlen 0%nat), lookup_app_r by lia.
      replace (_ + i - _)%nat with i by lia.
      by rewrite list_lookup_imap, Hi.
    + simpl. unfold itemKey.
      destruct (SliderItem.id item) as [[|c r]|] eqn:Hid; simpl;
        try done; repeat split; try done; apply positionalKey_copy_ne.
Qed.

(** C1, as stated, fails: an accepted item that carries an [id] is rendered
    with one and the same key in the two halves. *)
Lemma keys_equal_when_id_given :
  ¬ (∀ (p : InfiniteSliderProps) (st : State) (i : nat) (e0 e1 : ItemElement),
       invalidItems (items p) = [] →
       renderBuffer p st !! i = Some e0 →
       renderBuffer p st !! (length (items p) + i)%nat = Some e1 →
       key e0 ≠ key e1).
Proof.
  intros H.
  by apply (H (defaultProps [withId "a" "A"]) initialState 0%nat
              (renderItem (defaultProps [withId "a" "A"]) initialState 0 0 (withId "a" "A"))
              (renderItem (defaultProps [withId "a" "A"]) initialState 1 0 (withId "a" "A"))).
Qed.

(** ** Validation *)

Lemma invalidItems_nonempty (its : list SliderItem) (item : SliderItem) :
  item ∈ its → isInvalid item = true → (0 < length (invalidItems its))%nat.
Proof.
  intros Hin Hbad.
  assert (Hf : In item (invalidItems its)).
  { apply filter_In. split; [by apply list_elem_of_In | done]. }
  destruct (invalidItems its); [destruct Hf | simpl; lia].
Qed.

(** C2, as amended.  When some item has neither a logo nor a text, the
    validation effect throws its descriptive error (after logging the
    offending items); it is the first effect of the pass, so on mount no
    other effect has run when it throws: no observer, no state change, no
    preload image, no timer or animation frame, no published property.  The
    first render, however, has already been committed. *)
Theorem invalid_items_throw_in_first_effect
    (p : InfiniteSliderProps) (item : SliderItem) :
  item ∈ items p → isInvalid item = true →
  (∀ w, validateItems p w = Threw validationError (rejected p w))
  ∧ (∀ st h l w, runEffects p st h l w = Threw validationError (rejected p w))
  ∧ ∀ h l,
      mount p h l =
        Threw validationError
          (rejected p
             (withCommitted (Some (renderBuffer p initialState)) emptyWorld)).
Proof.
  intros Hin Hbad.
  assert (Hv : ∀ w, validateItems p w = Threw validationError (rejected p w)).
  { intros w. unfold validateItems.
    pose proof (invalidItems_nonempty _ _ Hin Hbad) as Hlen.
    apply Nat.ltb_lt in Hlen. by rewrite Hlen. }
  split; [done|]. split.
  - intros st h l w. unfold runEffects. by rewrite Hv.
  - intros h l. unfold mount, runEffects. by rewrite Hv.
Qed.

Lemma invalid_items_throw_in_first_effect_witness :
  emptyItem ∈ items (defaultProps [emptyItem])
  ∧ isInvalid emptyItem = true
  ∧ ∀ h l,
      mount (defaultProps [emptyItem]) h l =
        Threw validationError
          (rejected (defaultProps [emptyItem])
             (withCommitted
                (Some (renderBuffer (defaultProps [emptyItem]) initialState))
                emptyWorld)).
Proof.
  assert (Hin : emptyItem ∈ items (defaultProps [emptyItem]))
    by (simpl; apply list_elem_of_here).
  split; [exact Hin|]. split; [reflexivity|].
  exact (proj2 (proj2 (invalid_items_throw_in_first_effect
                         (defaultProps [emptyItem]) emptyItem Hin eq_refl))).
Defined.

(** C2, as stated, fails: the rejection does not come before rendering.
    When the error is thrown, the track of the invalid sequence has been
    rendered and committed. *)
Lemma rejection_follows_first_render :
  ¬ (∀ (p : InfiniteSliderProps) (h : Host) (l : Layout),
       invalidItems (items p) ≠ [] →
       ∃ e w, mount p h l = Threw e w ∧ committed w = None).
Proof.
  intros H.
  destruct (H (defaultProps [emptyItem]) browser
              {| children := []; computedGap := None |})
    as (e & w & Hm & Hc); [done|].
  vm_compute in Hm. injection Hm as _ Hw. subst w. discriminate Hc.
Qed.

(** ** The visibility gate *)

(** C9, as amended.  Without a window the gate never creates an observer
    (so that no root margin can make it throw).  It sets [shouldLoad] only
    when lazy loading is switched off; with lazy loading on it returns at
    the client-side guard and leaves every cell as it was. *)
Theorem gate_without_window (p : InfiniteSliderProps) (h : Host) (w : World) :
  hasWindow h = false →
  ∃ w' : World,
    visibilityGate p h w = Completed w'
    ∧ observers w' = observers w
    ∧ (lazyLoad p = false → shouldLoad (hooks w') = true)
    ∧ (lazyLoad p = true → w' = w).
Proof.
  intros Hw. unfold visibilityGate. rewrite Hw.
  destruct (lazyLoad p); simpl; eexists; repeat split; done.
Qed.

Lemma gate_without_window_witness :
  hasWindow serverHost = false
  ∧ ∃ w' : World,
      visibilityGate (defaultProps []) serverHost emptyWorld = Completed w'
      ∧ observers w' = []
      ∧ w' = emptyWorld.
Proof.
  destruct (gate_without_window (defaultProps []) serverHost emptyWorld eq_refl)
    as (w' & Hg & Ho & _ & Hsame).
  split; [reflexivity|]. exists w'.
  split; [exact Hg|]. split; [exact Ho | exact (Hsame eq_refl)].
Defined.

(** C9, as stated, fails: with the default lazy loading and no window the
    gate stays dormant. *)
Lemma gate_stays_dormant_on_server :
  ¬ (∀ (p : InfiniteSliderProps) (h : Host) (w : World),
       hasWindow h = false →
       ∃ w' : World,
         visibilityGate p h w = Completed w'
         ∧ shouldLoad (hooks w') = true).
Proof.
  intros H.
  destruct (H (defaultProps []) serverHost emptyWorld eq_refl) as (w' & Hg & Hs).
  injection Hg as <-. discriminate Hs.
Qed.

(** ** Asset readiness *)

Lemma setAdd_elem (acc : list string) (x y : string) :
  y ∈ setAdd acc x ↔ y ∈ acc ∨ y = x.
Proof.
  unfold setAdd. case_bool_decide as Hx.
  - split; [by left|]. intros [?| ->]; done.
  - rewrite elem_of_app, list_elem_of_singleton. done.
Qed.

Lemma setAdd_NoDup (acc : list string) (x : string) :
  NoDup acc → NoDup (setAdd acc x).
Proof.
  intros Hnd. unfold setAdd. case_bool_decide as Hx; [done|].
  apply NoDup_app. split; [done|]. split.
  - intros y Hy ->%list_elem_of_singleton. done.
  - apply NoDup_singleton.
Qed.

Lemma fold_setAdd_elem (l acc : list string) (y : string) :
  y ∈ fold_left setAdd l acc ↔ y ∈ acc ∨ y ∈ l.
Proof.
  revert acc. induction l as [|x l IH]; intros acc; simpl.
  - rewrite elem_of_nil. tauto.
  - rewrite IH, setAdd_elem, elem_of_cons. intuition.
Qed.

Lemma fold_setAdd_NoDup (l acc : list string) :
  NoDup acc → NoDup (fold_left setAdd l acc).
Proof.
  revert acc. induction l as [|x l IH]; intros acc Hnd; simpl; [done|].
  by apply IH, setAdd_NoDup.
Qed.

Lemma imageUrls_NoDup (its : list SliderItem) : NoDup (imageUrls its).
Proof. apply fold_setAdd_NoDup, NoDup_nil_2. Qed.

(** The distinct references are the non-empty logos of the items. *)
Lemma elem_of_imageUrls (its : list SliderItem) (u : string) :
  u ∈ imageUrls its ↔
  ∃ item, item ∈ its ∧ SliderItem.logo item = Some u ∧ u ≠ "".
Proof.
  unfold imageUrls, arrayFromSet, logos.
  rewrite fold_setAdd_elem, elem_of_nil, list_elem_of_omap.
  split.
  - intros [[]|(item & Hin & Hl)]. exists item. split; [done|].
    destruct (SliderItem.logo item) as [[|c r]|]; simpl in Hl; try done.
    by injection Hl as <-.
  - intros (item & Hin & Hl & Hne). right. exists item. split; [done|].
    rewrite Hl. by destruct u.
Qed.

Lemma imageSettled_checkAllLoaded k url ev w :
  imageSettled k url ev w = checkAllLoaded k w.
Proof. by destruct ev. Qed.

Lemma checkAllLoaded_step (k : nat) (w : World) (t c : nat) :
  loaders w !! k = Some {| totalImages := t; loadedCount := c |} →
  loaders (checkAllLoaded k w) !! k
    = Some {| totalImages := t; loadedCount := S c |}
  ∧ imagesLoaded (hooks (checkAllLoaded k w))
    = (imagesLoaded (hooks w) || (S c =? t)%nat).
Proof.
  intros Hk. unfold checkAllLoaded. rewrite Hk. cbn [totalImages loadedCount].
  assert (Hlt : (k < length (loaders w))%nat) by by eapply lookup_lt_Some.
  destruct (S c =? t)%nat; cbn;
    (split; [by rewrite list_lookup_insert_eq | by rewrite ?orb_true_r, ?orb_false_r]).
Qed.

Lemma settleAll_count (k : nat) (evs : list (string * ImageEvent)) :
  ∀ (w : World) (t c : nat),
    loaders w !! k = Some {| totalImages := t; loadedCount := c |} →
    imagesLoaded (hooks (settleAll k evs w))
    = (imagesLoaded (hooks w)
       || bool_decide (c < t ∧ t ≤ c + length evs)%nat).
Proof.
  induction evs as [|[url ev] evs IH]; intros w t c Hk; simpl.
  - rewrite bool_decide_eq_false_2 by lia. by rewrite orb_false_r.
  - rewrite imageSettled_checkAllLoaded.
    destruct (checkAllLoaded_step k w t c Hk) as [Hk' Hl'].
    rewrite (IH _ t (S c) Hk'), Hl', <- orb_assoc. f_equal.
    destruct (Nat.eqb_spec (S c) t) as [<-|Hne]; simpl.
    + symmetry. apply bool_decide_eq_true_2. lia.
    + apply bool_decide_ext. lia.
Qed.

(** No step of the model takes [imagesLoaded] back to [false]. *)
Lemma checkAllLoaded_keeps_ready k w :
  imagesLoaded (hooks w) = true → imagesLoaded (hooks (checkAllLoaded k w)) = true.
Proof.
  intros H. unfold checkAllLoaded. destruct (loaders w !! k) as [l|]; [|done].
  cbn [totalImages loadedCount]. by destruct (Nat.eqb _ _).
Qed.

Lemma preloadImages_keeps_ready p st h w :
  imagesLoaded (hooks w) = true →
  imagesLoaded (hooks (preloadImages p st h w)) = true.
Proof.
  intros H. unfold preloadImages.
  destruct (shouldLoad st), (hasWindow h); simpl; try done.
  by destruct (Nat.eqb _ _).
Qed.

(** C7, failing input.  Readiness is one cell of the component, shared by
    all runs of the preloading effect, and a run is neither cancelled nor
    is the cell reset when the items change.  A slider without lazy loading
    is mounted with the logo [/a.png]; before that image has completed its
    items are replaced by the logos [/b.png] and [/c.png].  The second run
    of the effect starts not ready and requests its two images.  The
    completion of [/a.png] then makes the component ready, with none of the
    images of the second sequence done, and the animation effect of the
    next render passes its guard and arms its timer (the measurement, or
    the retry when the track is still empty).  Likewise a sequence with a
    logo that follows a sequence without images is ready from the start,
    and the animation effect of its very render arms its timer. *)
Theorem readiness_is_not_per_generation :
  let first := withLazyLoad false (defaultProps [logoItem "/a.png"]) in
  let second :=
    withLazyLoad false (defaultProps [logoItem "/b.png"; logoItem "/c.png"]) in
  let texts := withLazyLoad false (defaultProps [textItem "A"]) in
  ∃ w0 v0 : World,
    (∀ l, mount first browser l = Completed w0)
    ∧ (∀ l, mount texts browser l = Completed v0)
    ∧ let w1 := preloadImages first (hooks w0) browser (rerender first w0) in
      let w2 := preloadImages second (hooks w1) browser (rerender second w1) in
      let w3 := imageSettled 0 "/a.png" onload w2 in
      let v1 := preloadImages texts (hooks v0) browser (rerender texts v0) in
      let v2 := preloadImages first (hooks v1) browser (rerender first v1) in
      (images w2 = ["/a.png"; "/b.png"; "/c.png"]
       ∧ imagesLoaded (hooks w2) = false
       ∧ loaders w3 !! 1%nat = Some {| totalImages := 2; loadedCount := 0 |}
       ∧ imagesLoaded (hooks w3) = true
       ∧ ∀ l, timers (animationEffect second (hooks w3) browser l
                        (rerender second w3))
              = [if (length (children l) =? 0)%nat
                 then (50%nat, TSetupAnimation second)
                 else (100%nat, TCalculateAndSetWidth second)])
      ∧ (imagesLoaded (hooks v1) = true
         ∧ images v2 = ["/a.png"]
         ∧ loaders v2 = [{| totalImages := 1; loadedCount := 0 |}]
         ∧ ∀ l, timers (animationEffect first (hooks v1) browser l v2)
                = [if (length (children l) =? 0)%nat
                   then (50%nat, TSetupAnimation first)
                   else (100%nat, TCalculateAndSetWidth first)]).
Proof.
  intros first second texts.
  exists (withHooks (setShouldLoad true)
            (withHooks (setIsVisible true)
               (withCommitted (Some (renderBuffer first initialState)) emptyWorld))),
         (withHooks (setShouldLoad true)
            (withHooks (setIsVisible true)
               (withCommitted (Some (renderBuffer texts initialState)) emptyWorld))).
  cbv zeta. split; [reflexivity|]. split; [reflexivity|].
  repeat split; try reflexivity.
  - intros l. unfold animationEffect, setupAnimation. simpl.
    by destruct (Nat.eqb _ _).
  - intros l. unfold animationEffect, setupAnimation. simpl.
    by destruct (Nat.eqb _ _).
Qed.

(** ** Facts about binary64 numbers *)

(** [Math.round] on a few arguments: halves go up, a zero result keeps the
    sign, integers and non-finite arguments are returned as they are. *)
Lemma Math_round_examples :
  (JS.Math_round 1199.5 = 1200 ∧ JS.Math_round 2.5 = 3
   ∧ JS.Math_round 0.25 = 0 ∧ JS.Math_round 1200 = 1200
   ∧ JS.Math_round infinity = infinity
   ∧ Prim2SF (JS.Math_round (-2.5)) = Prim2SF (-2)
   ∧ Prim2SF (JS.Math_round (-0.5)) = S754_zero true
   ∧ Prim2SF (JS.Math_round nan) = S754_nan)%float.
Proof. repeat split; reflexivity. Qed.

Section FloatFacts.

Local Open Scope float_scope.

Lemma strict_eq_zero (x : float) : JS.strict_eq x 0 = JS.isZero x.
Proof.
  unfold JS.strict_eq, JS.isZero. rewrite FloatAxioms.eqb_spec.
  change (Prim2SF 0) with (S754_zero false). unfold SFeqb, SFcompare.
  destruct (Prim2SF x) as [s|s| |s m e]; try destruct s; reflexivity.
Qed.

Lemma infinity_spec (x : float) : x = infinity ↔ Prim2SF x = S754_infinity false.
Proof.
  split; [intros ->; reflexivity|].
  intros H. apply Prim2SF_inj. by rewrite H.
Qed.

Lemma lt_100_cases (x : float) :
  JS.lt x 100 =
    match Prim2SF x with
    | S754_zero _ => true
    | S754_infinity s => s
    | S754_nan => false
    | S754_finite _ _ _ => JS.lt x 100
    end.
Proof.
  destruct (Prim2SF x) as [s|s| |s m e] eqn:E; try reflexivity;
    unfold JS.lt; rewrite FloatAxioms.ltb_spec, E; by try destruct s.
Qed.

Lemma le_zero_not_gt (x : float) : PrimFloat.leb x 0 = true → JS.gt x 0 = false.
Proof.
  unfold JS.gt. rewrite FloatAxioms.leb_spec, FloatAxioms.ltb_spec.
  change (Prim2SF 0) with (S754_zero false). unfold SFleb, SFltb, SFcompare.
  destruct (Prim2SF x) as [s|s| |s m e]; try destruct s; done.
Qed.

Lemma isFinite_false (x : float) : JS.isFinite x = false ↔ nonFinite (Prim2SF x).
Proof. unfold JS.isFinite. destruct (Prim2SF x); simpl; intuition congruence. Qed.

Lemma SFdiv_by_zero (y : spec_float) (s : bool) :
  nonFinite (SF64div y (S754_zero s)).
Proof. by destruct y. Qed.

Lemma SFmul_nonFinite (y z : spec_float) : nonFinite y → nonFinite (SF64mul y z).
Proof. destruct y, z; done. Qed.

End FloatFacts.

(** ** Measuring the track *)

Section MeasurementProperties.

Variable parseFloat : string → JS.number.

Local Open Scope float_scope.

(** The element lookups of the first two tiers stay inside the list. *)
Lemma primary_lookups_in_range (els : list HTMLElement) (n : nat) :
  els ≠ [] → (n * 2 <= length els)%nat →
  is_Some (els !! n) ∧ is_Some (els !! 0%nat).
Proof.
  intros Hne Hlen. destruct els as [|e els]; [done|]. simpl in Hlen.
  split; apply lookup_lt_is_Some; simpl; lia.
Qed.

Lemma secondary_lookups_in_range (els : list HTMLElement) (n : nat) :
  (n * 2 <=? length els)%nat = false → (n <= length els)%nat →
  is_Some (els !! pred n) ∧ is_Some (els !! 0%nat).
Proof.
  intros Hlt%Nat.leb_gt Hlen. split; apply lookup_lt_is_Some; lia.
Qed.

(** C8.  In the secondary and in the manual tier the gap is the parsed
    computed [gap] style when that style is a non-empty string, else the
    caller's [gap] when it is a number, else 48.  With no computed gap and
    [gap = 24] both tiers use 24. *)
Theorem gap_fallback_chain (p : InfiniteSliderProps) (l : Layout) :
  let els := children l in
  let n := length (items p) in
  let effective :=
    match computedGap l with
    | Some (String c s) => parseFloat (String c s)
    | _ => match gap p with
           | GapNumber g => g
           | GapString _ => 48
           end
    end in
  ((n * 2 <=? length els)%nat = false → (n <=? length els)%nat = true →
     measuredWidth parseFloat p l =
       offsetLeft (els !!! pred n) + offsetWidth (els !!! pred n)
       - offsetLeft (els !!! 0%nat) + effective)
  ∧ manualWidth parseFloat p l =
      fold_left (λ acc e, acc + offsetWidth e) (take n els) 0
      + effective * JS.of_Z (Z.of_nat n - 1)
  ∧ (computedGap l = None ∨ computedGap l = Some "" →
     gap p = GapNumber 24 → effective = 24 ∧ PrimFloat.eqb effective 48 = false).
Proof.
  intros els n effective.
  assert (Hgap : gapPx parseFloat l (gap p) = effective).
  { unfold gapPx, effective.
    by destruct (computedGap l) as [[|c s]|]. }
  split; [|split].
  - intros H2 H1. unfold measuredWidth. fold els n.
    by rewrite H2, H1, Hgap.
  - unfold manualWidth. by rewrite Hgap.
  - intros Hc Hg. unfold effective. rewrite Hg.
    by destruct Hc as [-> | ->].
Qed.

(** C5, as amended.  The manual tier replaces the measured value exactly
    when that value is a zero, is [NaN], or is below 100.  Of the non-finite
    values, [NaN] and negative infinity therefore start it; positive
    infinity does not and is kept as the width. *)
Theorem manual_tier_trigger (x : JS.number) :
  needsManual x = (JS.isZero x || JS.isNaN x || JS.lt x 100)
  ∧ (JS.isFinite x = false → (needsManual x = true ↔ x ≠ infinity))
  ∧ ∀ (p : InfiniteSliderProps) (l : Layout),
      measuredWidth parseFloat p l = x →
      halfTotalWidth parseFloat p l =
        if JS.isZero x || JS.isNaN x || JS.lt x 100
        then manualWidth parseFloat p l else x.
Proof.
  assert (Hn : needsManual x = (JS.isZero x || JS.isNaN x || JS.lt x 100)).
  { unfold needsManual, JS.truthy. rewrite strict_eq_zero, negb_involutive.
    by destruct (JS.isZero x), (JS.isNaN x). }
  split; [done|]. split.
  - intros Hnf. rewrite Hn, infinity_spec, lt_100_cases.
    unfold JS.isFinite, JS.isZero, JS.isNaN in *.
    destruct (Prim2SF x) as [s|[]| |s m e]; simpl; try done;
      split; try done; intros H; by contradict H.
  - intros p l Hx. unfold halfTotalWidth. by rewrite Hx, Hn.
Qed.

Lemma calculate_publishes (p : InfiniteSliderProps) (l : Layout) (w : World) :
  children l ≠ [] → JS.gt (halfTotalWidth parseFloat p l) 0 = true →
  calculateAndSetWidth parseFloat p l w =
    let rounded := JS.Math_round (halfTotalWidth parseFloat p l) in
    requestAnimationFrame TAddReadyClass
      (setProperty "--scroll-duration"
         (Seconds (scrollDuration rounded (baseWidth p) (duration p) (speed p)))
         (setProperty "--total-width" (Px rounded) w)).
Proof.
  intros Hne Hgt. unfold calculateAndSetWidth. rewrite Hgt.
  destruct (children l); done.
Qed.

Lemma calculate_keeps (p : InfiniteSliderProps) (l : Layout) (w : World) :
  children l = [] ∨ JS.gt (halfTotalWidth parseFloat p l) 0 = false →
  calculateAndSetWidth parseFloat p l w = w.
Proof.
  unfold calculateAndSetWidth. intros [-> | ->]; [done|].
  by destruct (Nat.eqb _ _).
Qed.

Lemma published_parameters (p : InfiniteSliderProps) (l : Layout) (w : World) :
  children l ≠ [] → JS.gt (halfTotalWidth parseFloat p l) 0 = true →
  let w' := calculateAndSetWidth parseFloat p l w in
  let rounded := JS.Math_round (halfTotalWidth parseFloat p l) in
  style w' !! "--total-width" = Some (Px rounded)
  ∧ style w' !! "--scroll-duration"
    = Some (Seconds (scrollDuration rounded (baseWidth p) (duration p) (speed p)))
  ∧ frames w' = frames w ++ [TAddReadyClass]
  ∧ console w' = console w.
Proof.
  intros Hne Hgt w' rounded. subst w'. rewrite calculate_publishes by done.
  simpl. rewrite lookup_insert_ne, !lookup_insert_eq by done. done.
Qed.

(** C4.  A run of the measurement either publishes both parameters, the
    rounded distance and the duration, in one step and requests the frame
    that starts the animation, or it changes nothing at all.  It publishes
    exactly when it finds children and the width it computes from them is
    greater than zero; a width that is zero, negative or [NaN] publishes
    nothing, starts nothing and reports nothing. *)
Theorem parameters_published_iff_positive
    (p : InfiniteSliderProps) (l : Layout) (w : World) :
  let w' := calculateAndSetWidth parseFloat p l w in
  let width := halfTotalWidth parseFloat p l in
  let rounded := JS.Math_round width in
  (children l ≠ [] ∧ JS.gt width 0 = true →
     style w' !! "--total-width" = Some (Px rounded)
     ∧ style w' !! "--scroll-duration"
       = Some (Seconds (scrollDuration rounded (baseWidth p) (duration p) (speed p)))
     ∧ frames w' = frames w ++ [TAddReadyClass]
     ∧ console w' = console w)
  ∧ (children l = [] ∨ JS.gt width 0 = false → w' = w)
  ∧ (PrimFloat.leb width 0 = true ∨ JS.isNaN width = true → w' = w)
  ∧ (frames w' = frames w ++ [TAddReadyClass] ↔
     children l ≠ [] ∧ JS.gt width 0 = true).
Proof.
  intros w' width rounded. subst w'.
  assert (Hpub : children l ≠ [] ∧ JS.gt width 0 = true →
    style (calculateAndSetWidth parseFloat p l w) !! "--total-width" = Some (Px rounded)
    ∧ style (calculateAndSetWidth parseFloat p l w) !! "--scroll-duration"
       = Some (Seconds (scrollDuration rounded (baseWidth p) (duration p) (speed p)))
    ∧ frames (calculateAndSetWidth parseFloat p l w) = frames w ++ [TAddReadyClass]
    ∧ console (calculateAndSetWidth parseFloat p l w) = console w).
  { intros [Hne Hgt]. by apply published_parameters. }
  assert (Hkeep : children l = [] ∨ JS.gt width 0 = false →
    calculateAndSetWidth parseFloat p l w = w) by apply calculate_keeps.
  split; [done|]. split; [done|]. split.
  - intros [Hle | Hnan]; apply Hkeep; right.
    + by apply le_zero_not_gt.
    + unfold JS.gt. rewrite FloatAxioms.ltb_spec.
      unfold JS.isNaN in Hnan. fold width.
      by destruct (Prim2SF width).
  - split; [|by intros H; apply Hpub in H as (_ & _ & ? & _)].
    intros Hf.
    destruct (children l) as [|e els] eqn:Hc;
      [|destruct (JS.gt width 0) eqn:Hgt; [done|]];
      rewrite Hkeep in Hf by (rewrite ?Hc; auto);
      apply (f_equal length) in Hf; rewrite length_app in Hf; simpl in Hf; lia.
Qed.

(** C10.  The duration is the quotient by [baseWidth] without a check of
    the divisor: when the width is positive and [baseWidth] is zero, the
    published duration is infinite or [NaN], and it is published together
    with the rounded distance all the same. *)
Theorem zero_baseWidth_publishes_nonfinite_duration
    (p : InfiniteSliderProps) (l : Layout) (w : World) :
  children l ≠ [] →
  JS.gt (halfTotalWidth parseFloat p l) 0 = true →
  JS.strict_eq (baseWidth p) 0 = true →
  let w' := calculateAndSetWidth parseFloat p l w in
  ∃ d : JS.number,
    style w' !! "--scroll-duration" = Some (Seconds d)
    ∧ JS.isFinite d = false
    ∧ style w' !! "--total-width"
      = Some (Px (JS.Math_round (halfTotalWidth parseFloat p l)))
    ∧ frames w' = frames w ++ [TAddReadyClass].
Proof.
  intros Hne Hgt Hz w'.
  destruct (published_parameters p l w Hne Hgt) as (Hw & Hd & Hf & _).
  eexists. split; [exact Hd|]. split; [|done].
  apply isFinite_false. unfold scrollDuration.
  rewrite !mul_spec, div_spec. do 2 apply SFmul_nonFinite.
  rewrite strict_eq_zero in Hz. unfold JS.isZero in Hz.
  destruct (Prim2SF (baseWidth p)) as [s| | |]; try done.
  apply SFdiv_by_zero.
Qed.

End MeasurementProperties.

(** Two numbers with different specifications are different. *)
Ltac float_discriminate H :=
  apply (f_equal Prim2SF) in H; vm_compute in H; discriminate H.

(** C5, as stated, fails at positive infinity: it is not finite, yet it
    does not start the manual tier.  With one copy on the track and an
    infinite numeric gap the secondary tier yields positive infinity, and
    that value is kept. *)
Lemma positive_infinity_skips_manual_tier :
  ¬ (∀ (p : InfiniteSliderProps) (l : Layout),
       JS.isFinite (measuredWidth unusedParseFloat p l) = false →
       halfTotalWidth unusedParseFloat p l = manualWidth unusedParseFloat p l).
Proof.
  intros H.
  specialize (H infiniteGapProps singleCopyLayout eq_refl).
  float_discriminate H.
Qed.

Lemma zero_baseWidth_publishes_nonfinite_duration_witness :
  let p := withBaseWidth 0%float abc in
  children abcLayout ≠ []
  ∧ JS.gt (halfTotalWidth unusedParseFloat p abcLayout) 0%float = true
  ∧ JS.strict_eq (baseWidth p) 0%float = true
  ∧ ∃ d : JS.number,
      style (calculateAndSetWidth unusedParseFloat p abcLayout emptyWorld)
        !! "--scroll-duration" = Some (Seconds d)
      ∧ JS.isFinite d = false.
Proof.
  intros p.
  assert (Hne : children abcLayout ≠ []) by done.
  split; [exact Hne|]. split; [reflexivity|]. split; [reflexivity|].
  destruct (zero_baseWidth_publishes_nonfinite_duration unusedParseFloat p
              abcLayout emptyWorld Hne eq_refl eq_refl) as (d & Hd & Hnf & _).
  exists d. by split.
Defined.

(** ** Polling for children *)

Section Polling.

Variable parseFloat : string → JS.number.

(** The queue: which timer is due first, and what firing it leaves. *)
Lemma dueFirst_lookup (q : list (nat * Task)) (i ms : nat) (t : Task) :
  dueFirst q = Some (i, (ms, t)) → q !! i = Some (ms, t).
Proof.
  revert i ms t. induction q as [|[ms0 t0] q IH]; intros i ms t; simpl; [done|].
  destruct (dueFirst q) as [[j [ms' t']]|].
  - destruct (ms' <? ms0)%nat; intros [= <- <- <-]; [by apply IH | done].
  - by intros [= <- <- <-].
Qed.

Lemma dueFirst_None (q : list (nat * Task)) : dueFirst q = None → q = [].
Proof.
  destruct q as [|[ms t] q]; simpl; [done|].
  destruct (dueFirst q) as [[j [ms' t']]|]; [|done].
  by destruct (ms' <? ms)%nat.
Qed.

(** A timer at the head of the queue runs first when no later one has
    less time left. *)
Lemma dueFirst_head (ms : nat) (t : Task) (q : list (nat * Task)) :
  (∀ x, x ∈ q → (ms ≤ x.1)%nat) → dueFirst ((ms, t) :: q) = Some (0%nat, (ms, t)).
Proof.
  intros Hq. simpl.
  destruct (dueFirst q) as [[j [ms' t']]|] eqn:Hd; [|done].
  apply dueFirst_lookup, list_elem_of_lookup_2, Hq in Hd. simpl in Hd.
  by rewrite (proj2 (Nat.ltb_ge ms' ms)).
Qed.

Lemma elapse_tasks (d : nat) (q : list (nat * Task)) : (elapse d q).*2 = q.*2.
Proof.
  unfold elapse. rewrite <- list_fmap_compose. apply list_fmap_ext.
  by intros _ [ms t] _.
Qed.

Lemma pop_only_timer (t : Task) (ms : nat) (w : World) :
  timers w = [] →
  withTimers (λ q, elapse ms (delete 0%nat q)) (setTimeout t ms w) = w.
Proof. destruct w. unfold setTimeout, withTimers. simpl. by intros ->. Qed.

Lemma tick_only_timer (t : Task) (ms : nat) (l : Layout) (w : World) :
  timers w = [] → tick parseFloat l (setTimeout t ms w) = fire parseFloat t l w.
Proof.
  intros Hw. unfold tick. simpl. rewrite Hw. simpl.
  by rewrite pop_only_timer.
Qed.

Lemma run_while_empty (p : InfiniteSliderProps) (layouts : nat → Layout)
    (w : World) (n k : nat) :
  timers w = [] →
  (∀ j, (k <= j < k + n)%nat → children (layouts j) = []) →
  run parseFloat n layouts k (setTimeout (TSetupAnimation p) 50 w)
  = setTimeout (TSetupAnimation p) 50 w.
Proof.
  intros Hw. revert k. induction n as [|n IH]; intros k Hempty; [done|].
  simpl. rewrite tick_only_timer by done. simpl.
  unfold setupAnimation. rewrite (Hempty k) by lia. simpl.
  apply IH. intros j Hj. apply Hempty. lia.
Qed.

Lemma poll_while_empty (p : InfiniteSliderProps) (layouts : nat → Layout)
    (w : World) (n : nat) :
  timers w = [] →
  (∀ j, (j <= n)%nat → children (layouts j) = []) →
  poll parseFloat p layouts n w = setTimeout (TSetupAnimation p) 50 w.
Proof.
  intros Hw Hempty. unfold poll, setupAnimation at 1.
  rewrite (Hempty 0%nat) by lia. simpl.
  apply run_while_empty; [done|]. intros j Hj. apply Hempty. lia.
Qed.

Lemma poll_until_children (p : InfiniteSliderProps) (layouts : nat → Layout)
    (w : World) (n : nat) :
  timers w = [] →
  (∀ j, (j < n)%nat → children (layouts j) = []) →
  children (layouts n) ≠ [] →
  poll parseFloat p layouts n w = setTimeout (TCalculateAndSetWidth p) 100 w.
Proof.
  intros Hw Hempty Hn.
  assert (Hfound : setupAnimation p (layouts n) w
                   = setTimeout (TCalculateAndSetWidth p) 100 w).
  { unfold setupAnimation. by destruct (children (layouts n)). }
  destruct n as [|n].
  { unfold poll. simpl. exact Hfound. }
  assert (Hsplit : ∀ a b k w0,
    run parseFloat (a + b) layouts k w0
    = run parseFloat b layouts (k + a) (run parseFloat a layouts k w0)).
  { induction a as [|a IHa]; intros b k w0; simpl.
    - by rewrite Nat.add_0_r.
    - rewrite IHa. by replace (S k + a)%nat with (k + S a)%nat by lia. }
  unfold poll. replace (S n) with (n + 1)%nat at 1 by lia. rewrite Hsplit.
  assert (Hfirst : setupAnimation p (layouts 0%nat) w
                   = setTimeout (TSetupAnimation p) 50 w).
  { unfold setupAnimation. by rewrite (Hempty 0%nat) by lia. }
  rewrite Hfirst, run_while_empty by (done || (intros j Hj; apply Hempty; lia)).
  cbn [run]. rewrite tick_only_timer by done. cbn [fire].
  by replace (1 + n)%nat with (S n) by lia.
Qed.

(** C6, as amended.  A call of [setupAnimation] never waits: it queues one
    timer and returns.  With no children on the track it queues itself
    again, 50ms later, and nothing in it counts or limits the retries: as
    long as every layout it has seen is empty, one more retry is pending.
    The polling ends with the first layout that has children, which
    schedules the measurement instead. *)
Theorem polling_lasts_until_children_appear
    (p : InfiniteSliderProps) (layouts : nat → Layout) (w : World) (n : nat) :
  timers w = [] →
  ((∀ j, (j <= n)%nat → children (layouts j) = []) →
     poll parseFloat p layouts n w = setTimeout (TSetupAnimation p) 50 w
     ∧ retryPending p (poll parseFloat p layouts n w))
  ∧ ((∀ j, (j < n)%nat → children (layouts j) = []) →
     children (layouts n) ≠ [] →
     poll parseFloat p layouts n w = setTimeout (TCalculateAndSetWidth p) 100 w
     ∧ ¬ retryPending p (poll parseFloat p layouts n w)).
Proof.
  intros Hw. split.
  - intros Hempty. rewrite poll_while_empty by done. split; [done|].
    unfold retryPending. simpl. rewrite Hw. apply list_elem_of_here.
  - intros Hempty Hn. rewrite poll_until_children by done. split; [done|].
    unfold retryPending. simpl. rewrite Hw. simpl.
    intros Hin%list_elem_of_singleton. discriminate Hin.
Qed.

End Polling.

Lemma polling_lasts_until_children_appear_witness :
  timers emptyWorld = []
  ∧ (∀ j, (j <= 7)%nat → children ((λ _, noChildren) j) = [])
  ∧ retryPending (defaultProps [])
      (poll unusedParseFloat (defaultProps []) (λ _, noChildren) 7 emptyWorld).
Proof.
  split; [reflexivity|]. split; [done|].
  exact (proj2 (proj1 (polling_lasts_until_children_appear unusedParseFloat
                         (defaultProps []) (λ _, noChildren) emptyWorld 7 eq_refl)
                      (λ _ _, eq_refl))).
Defined.

(** C6, as stated, fails: the polling has no bound.  An empty item list
    passes validation and renders a track without children; whatever
    number of retries has been made, the next one is pending. *)
Lemma polling_never_stops_without_children :
  ¬ (∀ (p : InfiniteSliderProps) (layouts : nat → Layout),
       invalidItems (items p) = [] →
       ∃ N : nat, ∀ n : nat, (N <= n)%nat →
         ¬ retryPending p (poll unusedParseFloat p layouts n emptyWorld)).
Proof.
  intros H.
  destruct (H (defaultProps []) (λ _, noChildren) eq_refl) as [N HN].
  apply (HN N (Nat.le_refl N)).
  rewrite poll_while_empty by done.
  unfold retryPending. simpl. apply list_elem_of_here.
Qed.

(** ** Rounding in binary64: scaling a product by two *)

Section Rounding.

Local Open Scope Z_scope.

Lemma fexp_binary64 (e : Z) : fexp prec emax e = Z.max (e - 53) (-1074).
Proof. reflexivity. Qed.

Lemma digits2_pos_bounds (m : positive) :
  2 ^ (Zpos (digits2_pos m) - 1) <= Zpos m < 2 ^ Zpos (digits2_pos m).
Proof.
  induction m as [m IH|m IH|]; [| |by vm_compute].
  - cbn [digits2_pos]. rewrite Pos2Z.inj_succ.
    replace (Z.succ (Zpos (digits2_pos m)) - 1) with (Z.succ (Zpos (digits2_pos m) - 1)) by lia.
    rewrite !Z.pow_succ_r by lia. lia.
  - cbn [digits2_pos]. rewrite Pos2Z.inj_succ.
    replace (Z.succ (Zpos (digits2_pos m)) - 1) with (Z.succ (Zpos (digits2_pos m) - 1)) by lia.
    rewrite !Z.pow_succ_r by lia. lia.
Qed.

Lemma Zdigits2_le (z k : Z) : 0 <= k → 0 <= z <= 2 ^ k → Zdigits2 z <= k + 1.
Proof.
  intros Hk [Hz Hle]. destruct z as [|m|m]; [simpl; lia| |lia].
  simpl. destruct (digits2_pos_bounds m) as [Hlo _].
  destruct (Z.le_gt_cases (Zpos (digits2_pos m)) (k + 1)) as [|Hgt]; [done|].
  assert (2 ^ (k + 1) <= 2 ^ (Zpos (digits2_pos m) - 1))
    by (apply Z.pow_le_mono_r; lia).
  rewrite Z.pow_add_r in H by lia. lia.
Qed.

Lemma shr_1_m (r : shr_record) : 0 <= shr_m r → shr_m (shr_1 r) = shr_m r / 2.
Proof.
  destruct r as [m rb sb]. simpl. intros Hm.
  destruct m as [|[q|q|]|q]; simpl; try lia; try reflexivity.
  - rewrite Pos2Z.inj_xI. apply Z.div_unique with 1; lia.
  - rewrite Pos2Z.inj_xO. apply Z.div_unique with 0; lia.
Qed.

Lemma iter_shr_1_m (p : positive) :
  ∀ r, 0 <= shr_m r → shr_m (SpecFloat.iter_pos shr_1 p r) = shr_m r / 2 ^ Zpos p.
Proof.
  induction p as [p IH|p IH|]; intros r Hr; cbn [SpecFloat.iter_pos].
  - assert (H1 : 0 <= shr_m (shr_1 r)) by (rewrite shr_1_m by done; apply Z.div_pos; lia).
    assert (H2 : 0 <= shr_m (SpecFloat.iter_pos shr_1 p (shr_1 r)))
      by (rewrite IH by done; apply Z.div_pos; lia).
    rewrite IH, IH, shr_1_m by done.
    rewrite !Z.div_div by lia. f_equal.
    replace (Zpos p~1) with (1 + (Zpos p + Zpos p)) by lia.
    rewrite !Z.pow_add_r by lia. ring.
  - assert (H2 : 0 <= shr_m (SpecFloat.iter_pos shr_1 p r))
      by (rewrite IH by done; apply Z.div_pos; lia).
    rewrite IH, IH by done.
    rewrite !Z.div_div by lia. f_equal.
    replace (Zpos p~0) with (Zpos p + Zpos p) by lia.
    rewrite !Z.pow_add_r by lia. ring.
  - by apply shr_1_m.
Qed.

Lemma round_nearest_even_bounds (m : Z) (l : location) :
  m <= round_nearest_even m l <= m + 1.
Proof.
  destruct l as [|[]]; simpl; try lia. destruct (Z.even m); lia.
Qed.

Lemma shr_shift (r : shr_record) (E n n' : Z) :
  n' = n ∨ (n <= 0 ∧ n' <= 0) →
  shr r (E + 1) n' = ((shr r E n).1, (shr r E n).2 + 1).
Proof.
  intros [-> | [Hn Hn']].
  - destruct n; simpl; f_equal; lia.
  - destruct n, n'; simpl; try lia; reflexivity.
Qed.

Lemma finish_shift (s s' : bool) (m2 e1 : Z) (m : positive) (e : Z) :
  finish s m2 e1 = S754_finite s' m e → -1074 < e → e < 971 →
  finish s m2 (e1 + 1) = S754_finite s' m (e + 1).
Proof.
  unfold finish, shr_fexp. rewrite !fexp_binary64.
  set (r := shr_record_of_loc m2 loc_Exact). set (d := Zdigits2 m2).
  intros H Hlo Hhi.
  destruct (Z_le_gt_dec (-1074 - e1) (Z.max (d - 53) 0)) as [Hnorm|Hsub].
  - rewrite (shr_shift r e1 (Z.max (d + e1 - 53) (-1074) - e1)) by lia.
    destruct (shr r e1 _) as [mrs e2]. simpl.
    destruct (shr_m mrs) as [|q|q]; try done.
    change (emax - prec) with 971 in *.
    destruct (Z.leb_spec e2 971); [|done]. injection H as -> -> ->.
    destruct (Z.leb_spec (e + 1) 971); [done|lia].
  - exfalso.
    replace (Z.max (d + e1 - 53) (-1074) - e1) with (-1074 - e1) in H by lia.
    destruct (-1074 - e1) as [|n|n] eqn:Hn; try lia. simpl in H.
    destruct (shr_m _) as [|q|q]; try done.
    destruct (_ <=? _); [|done]. injection H as _ _ He. lia.
Qed.

Lemma finish_subnormal (s s' : bool) (m2 : Z) (m : positive) (e : Z) :
  0 <= m2 <= 2 ^ 52 →
  finish s m2 (-1074) = S754_finite s' m e → e = -1074.
Proof.
  intros Hm2 H. unfold finish, shr_fexp in H. rewrite fexp_binary64 in H.
  pose proof (Zdigits2_le m2 52 ltac:(lia) Hm2) as Hd.
  replace (Z.max (Zdigits2 m2 + -1074 - 53) (-1074) - -1074) with 0 in H by lia.
  simpl in H. destruct m2 as [|q|q]; try done. simpl in H.
  by injection H as _ _ <-.
Qed.

Lemma binary_round_aux_finish (s : bool) (mx ex : Z) (lx : location) :
  binary_round_aux prec emax s mx ex lx =
    let '(mrs, e1) := shr_fexp prec emax mx ex lx in
    finish s (round_nearest_even (shr_m mrs) (loc_of_shr_record mrs)) e1.
Proof. reflexivity. Qed.

(** A product that rounds to a number above the subnormal range and at
    least one binade below overflow rounds to the same mantissa, one
    exponent higher, when the exact product is doubled. *)
Lemma binary_round_aux_shift (s s' : bool) (M : positive) (E : Z)
    (m : positive) (e : Z) :
  binary_round_aux prec emax s (Zpos M) E loc_Exact = S754_finite s' m e →
  -1074 < e → e < 971 →
  binary_round_aux prec emax s (Zpos M) (E + 1) loc_Exact
  = S754_finite s' m (e + 1).
Proof.
  rewrite !binary_round_aux_finish. unfold shr_fexp. rewrite !fexp_binary64.
  set (r := shr_record_of_loc (Zpos M) loc_Exact).
  set (d := Zdigits2 (Zpos M)).
  intros H Hlo Hhi.
  destruct (Z_le_gt_dec (-1074 - E) (Z.max (d - 53) 0)) as [Hnorm|Hsub].
  - rewrite (shr_shift r E (Z.max (d + E - 53) (-1074) - E)) by lia.
    destruct (shr r E _) as [mrs e1]. simpl. by apply finish_shift.
  - exfalso.
    replace (Z.max (d + E - 53) (-1074) - E) with (-1074 - E) in H by lia.
    destruct (-1074 - E) as [|n|n] eqn:Hn; try lia. simpl in H.
    replace (E + Zpos n) with (-1074) in H by lia.
    apply finish_subnormal in H; [lia|].
    set (mrs := SpecFloat.iter_pos shr_1 n r) in *.
    assert (Hm : shr_m mrs = Zpos M / 2 ^ Zpos n)
      by (apply iter_shr_1_m; simpl; lia).
    assert (Hb : 0 <= shr_m mrs < 2 ^ 52).
    { rewrite Hm. split; [apply Z.div_pos; lia|].
      apply Z.div_lt_upper_bound; [lia|].
      destruct (digits2_pos_bounds M) as [_ Hup]. fold (Zdigits2 (Zpos M)) in Hup.
      fold d in Hup. rewrite <- Z.pow_add_r by lia.
      eapply Z.lt_le_trans; [exact Hup|]. apply Z.pow_le_mono_r; lia. }
    pose proof (round_nearest_even_bounds (shr_m mrs) (loc_of_shr_record mrs)).
    lia.
Qed.

Lemma SFmul_comm (x y : spec_float) : SF64mul x y = SF64mul y x.
Proof.
  destruct x as [sx|sx| |sx mx ex], y as [sy|sy| |sy my ey];
    unfold SF64mul, SFmul; try reflexivity; try (by rewrite xorb_comm).
  by rewrite (xorb_comm sx sy), (Pos.mul_comm mx my), (Z.add_comm ex ey).
Qed.

Lemma SFmul_double_r (x : spec_float) (sy : bool) (my : positive) (ey : Z)
    (s : bool) (mz : positive) (ez : Z) :
  SF64mul x (S754_finite sy my ey) = S754_finite s mz ez →
  -1074 < ez → ez < 971 →
  SF64mul x (S754_finite sy my (ey + 1)) = S754_finite s mz (ez + 1).
Proof.
  destruct x as [sx|sx| |sx mx ex]; try done.
  unfold SF64mul, SFmul. rewrite Z.add_assoc. apply binary_round_aux_shift.
Qed.

(** A valid number above the subnormal range has a full mantissa. *)
Lemma valid_normal_digits (s : bool) (m : positive) (e : Z) :
  valid_binary (S754_finite s m e) = true → -1074 < e →
  digits2_pos m = 53%positive.
Proof.
  unfold SpecFloat.valid_binary, bounded, canonical_mantissa.
  rewrite fexp_binary64. intros [Hc _]%andb_prop Hlo.
  apply Z.eqb_eq in Hc. lia.
Qed.

Lemma SFmul_one_r (s : bool) (m : positive) (e : Z) :
  valid_binary (S754_finite s m e) = true → -1074 < e →
  SF64mul (S754_finite s m e) (Prim2SF 1) = S754_finite s m e.
Proof.
  intros Hv Hlo.
  pose proof (valid_normal_digits s m e Hv Hlo) as Hd.
  assert (Hhi : e <= 971).
  { unfold SpecFloat.valid_binary, bounded in Hv.
    apply andb_prop in Hv as [_ Hv]. by apply Z.leb_le in Hv. }
  change (Prim2SF 1) with (S754_finite false 4503599627370496 (-52)).
  unfold SF64mul, SFmul. rewrite xorb_false_r, Pos.mul_comm.
  rewrite binary_round_aux_finish. unfold shr_fexp. rewrite fexp_binary64.
  change (4503599627370496 * m)%positive with (Pos.iter xO m 52).
  cbv [Pos.iter]. cbn [Zdigits2 digits2_pos]. rewrite Hd.
  match goal with |- context [Zpos ?d + (e + -52)] =>
    let d' := eval vm_compute in d in change d with d' end.
  match goal with |- context [shr ?r ?E ?n] =>
    replace n with 52 by lia end.
  cbv [shr SpecFloat.iter_pos shr_1 shr_record_of_loc orb
       loc_of_shr_record shr_m round_nearest_even].
  unfold finish, shr_fexp. rewrite fexp_binary64. cbn [Zdigits2]. rewrite Hd.
  match goal with |- context [shr ?r ?E ?n] => replace n with 0 by lia end.
  cbn [shr shr_record_of_loc shr_m]. change (emax - prec) with 971.
  replace (e + -52 + 52) with e by lia.
  destruct (Z.leb_spec e 971); [done|lia].
Qed.

(** Multiplying by two raises the exponent by one. *)
Lemma SFmul_two_r (s : bool) (m : positive) (e : Z) :
  valid_binary (S754_finite s m e) = true → -1074 < e → e < 971 →
  SF64mul (S754_finite s m e) (Prim2SF 2) = S754_finite s m (e + 1).
Proof.
  intros Hv Hlo Hhi.
  change (Prim2SF 2) with (S754_finite false 4503599627370496 (-52 + 1)).
  apply SFmul_double_r; [|done..].
  by apply (SFmul_one_r s m e).
Qed.

End Rounding.

(** ** The duration of a cycle *)

Section Duration.

Local Open Scope float_scope.

Lemma inNormalRange_spec (x : float) :
  inNormalRange x = true →
  ∃ (s : bool) (m : positive) (e : Z),
    Prim2SF x = S754_finite s m e ∧ (-1074 < e < 971)%Z
    ∧ Prim2SF (2 * x) = S754_finite s m (e + 1).
Proof.
  unfold inNormalRange. intros H.
  pose proof (Prim2SF_valid x) as Hv.
  destruct (Prim2SF x) as [| | |s m e] eqn:Hx; try done.
  apply andb_prop in H as [Hlo%Z.ltb_lt Hhi%Z.ltb_lt].
  exists s, m, e. split; [done|]. split; [lia|].
  rewrite mul_spec, Hx, SFmul_comm. by apply SFmul_two_r.
Qed.

(** Doubling a factor doubles the product, as long as the factor and the
    product stay in the normal range. *)
Lemma mul_double_r (q y : float) :
  inNormalRange y = true → inNormalRange (q * y) = true →
  q * (2 * y) = 2 * (q * y).
Proof.
  intros (sy & my & ey & Hy & _ & Hy2)%inNormalRange_spec
         (s & m & e & Hp & [Hlo Hhi] & Hp2)%inNormalRange_spec.
  apply Prim2SF_inj. rewrite Hp2, mul_spec, Hy2.
  apply SFmul_double_r; [|done..]. by rewrite <- Hy, <- mul_spec.
Qed.

Lemma mul_double_l (y q : float) :
  inNormalRange y = true → inNormalRange (y * q) = true →
  (2 * y) * q = 2 * (y * q).
Proof.
  intros (sy & my & ey & Hy & _ & Hy2)%inNormalRange_spec
         (s & m & e & Hp & [Hlo Hhi] & Hp2)%inNormalRange_spec.
  apply Prim2SF_inj. rewrite Hp2, mul_spec, Hy2, SFmul_comm.
  apply SFmul_double_r; [|done..].
  by rewrite SFmul_comm, <- Hy, <- mul_spec.
Qed.

Lemma scrollDuration_double_duration (width base d s : float) :
  inNormalRange d = true →
  inNormalRange (width / base * d) = true →
  inNormalRange (width / base * d * s) = true →
  scrollDuration width base (2 * d) s = 2 * scrollDuration width base d s.
Proof.
  intros Hd Hqd Hqds. unfold scrollDuration.
  by rewrite mul_double_r, mul_double_l.
Qed.

Lemma scrollDuration_double_speed (width base d s : float) :
  inNormalRange s = true →
  inNormalRange (width / base * d * s) = true →
  scrollDuration width base d (2 * s) = 2 * scrollDuration width base d s.
Proof.
  intros Hs Hqds. unfold scrollDuration. by rewrite mul_double_r.
Qed.

End Duration.

Section PublishedDuration.

Variable parseFloat : string → JS.number.

Local Open Scope float_scope.

(** C3, as amended.  For a positive width the published duration is the
    binary64 value of [rounded / baseWidth * duration * speed], evaluated
    from left to right.  Doubling [duration] or [speed] doubles it exactly
    whenever the doubled factor and the products it goes through lie in
    the normal range, [2^-1021 <= |x| < 2^1023].  In the scenario of the
    specification (1200px, 30s, speed 1, base 5000) the published duration
    is 7.199999999999999, the number just below 7.2. *)
Theorem published_duration
    (p : InfiniteSliderProps) (l : Layout) (w : World) :
  children l ≠ [] →
  JS.gt (halfTotalWidth parseFloat p l) 0 = true →
  let distance := JS.Math_round (halfTotalWidth parseFloat p l) in
  let value d s := distance / baseWidth p * d * s in
  publishedDuration parseFloat p l w
    = Some (Seconds (value (duration p) (speed p)))
  ∧ (inNormalRange (duration p) = true →
     inNormalRange (distance / baseWidth p * duration p) = true →
     inNormalRange (value (duration p) (speed p)) = true →
     publishedDuration parseFloat (withTiming (2 * duration p) (speed p) p) l w
       = Some (Seconds (2 * value (duration p) (speed p))))
  ∧ (inNormalRange (speed p) = true →
     inNormalRange (value (duration p) (speed p)) = true →
     publishedDuration parseFloat (withTiming (duration p) (2 * speed p) p) l w
       = Some (Seconds (2 * value (duration p) (speed p))))
  ∧ (distance = 1200 → baseWidth p = 5000 → duration p = 30 → speed p = 1 →
     publishedDuration parseFloat p l w = Some (Seconds scenarioDuration)).
Proof.
  intros Hne Hgt distance value.
  assert (Hpub : ∀ q : InfiniteSliderProps,
    items q = items p → gap q = gap p → baseWidth q = baseWidth p →
    publishedDuration parseFloat q l w
      = Some (Seconds (scrollDuration distance (baseWidth p) (duration q) (speed q)))).
  { intros q Hi Hg Hb.
    assert (Hw : halfTotalWidth parseFloat q l = halfTotalWidth parseFloat p l).
    { unfold halfTotalWidth, measuredWidth, manualWidth. by rewrite Hi, Hg. }
    destruct (published_parameters parseFloat q l w Hne) as (_ & Hd & _).
    { by rewrite Hw. }
    unfold publishedDuration. rewrite Hd, Hw, Hb. done. }
  split; [|split; [|split]].
  - by rewrite Hpub.
  - intros Hd Hqd Hqds. rewrite Hpub by done. simpl.
    by rewrite scrollDuration_double_duration.
  - intros Hs Hqds. rewrite Hpub by done. simpl.
    by rewrite scrollDuration_double_speed.
  - intros Hdist Hb Hd Hs. rewrite Hpub by done.
    by rewrite Hdist, Hb, Hd, Hs.
Qed.

End PublishedDuration.

Lemma published_duration_witness :
  children abcLayout ≠ []
  ∧ JS.gt (halfTotalWidth unusedParseFloat abc abcLayout) 0%float = true
  ∧ publishedDuration unusedParseFloat abc abcLayout emptyWorld
    = Some (Seconds scenarioDuration)
  ∧ publishedDuration unusedParseFloat
      (withTiming (2 * duration abc)%float (speed abc) abc) abcLayout emptyWorld
    = Some (Seconds (2 * scenarioDuration)%float).
Proof.
  assert (Hne : children abcLayout ≠ []) by done.
  destruct (published_duration unusedParseFloat abc abcLayout emptyWorld
              Hne eq_refl) as (_ & Hdouble & _ & Hscenario).
  split; [exact Hne|]. split; [reflexivity|]. split.
  - exact (Hscenario eq_refl eq_refl eq_refl eq_refl).
  - exact (Hdouble eq_refl eq_refl eq_refl).
Defined.

(** C3, as stated, fails in the arithmetic of the code.  In the scenario
    the published duration is not 7.2 but the binary64 number below it
    (five times its mantissa falls short of 36 * 2^50); and doubling the
    duration does not double the result when the product overflows on the
    way. *)
Lemma scenario_duration_is_not_7_2 :
  publishedDuration unusedParseFloat abc abcLayout emptyWorld
    = Some (Seconds scenarioDuration)
  ∧ scenarioDuration ≠ nearest_7_2
  ∧ nearest_7_2 = (72 / 10)%float
  ∧ Prim2SF scenarioDuration = S754_finite false 8106479329266892 (-50)
  ∧ (5 * 8106479329266892 < 36 * 2 ^ 50)%Z
  ∧ (scrollDuration 2 1 (2 * 0x1p+1022) 0x1p-2
     ≠ 2 * scrollDuration 2 1 0x1p+1022 0x1p-2)%float.
Proof.
  split; [reflexivity|]. split; [intros H; float_discriminate H|].
  split; [reflexivity|]. split; [reflexivity|]. split; [reflexivity|].
  intros H; float_discriminate H.
Qed.

(** * Further properties of the component *)

(** ** Validation accepts exactly the valid sequences *)

Lemma valid_items_not_invalid (its : list SliderItem) :
  (∀ item, item ∈ its → isInvalid item = false) ↔
  ∀ item, item ∈ its → hasLogo item = true ∨ hasText item = true.
Proof.
  unfold isInvalid, hasLogo, hasText.
  split; intros H item Hin; specialize (H item Hin);
    destruct (JS.truthy_str (SliderItem.logo item)),
             (JS.truthy_str (SliderItem.text item)); simpl in *;
    intuition congruence.
Qed.

Lemma invalidItems_nil (its : list SliderItem) :
  invalidItems its = [] ↔ ∀ item, item ∈ its → isInvalid item = false.
Proof.
  unfold invalidItems. induction its as [|x its IH]; simpl.
  - split; [intros _ item Hin; by apply elem_of_nil in Hin | done].
  - destruct (isInvalid x) eqn:Hx.
    + split; [done|]. intros H. specialize (H x (list_elem_of_here _ _)).
      congruence.
    + rewrite IH. split.
      * intros H item [->|Hin]%elem_of_cons; auto.
      * intros H item Hin. apply H. by apply list_elem_of_further.
Qed.

Lemma validateItems_valid (p : InfiniteSliderProps) (w : World) :
  (∀ item, item ∈ items p → hasLogo item = true ∨ hasText item = true) →
  validateItems p w = Completed w.
Proof.
  intros H.
  pose proof (proj2 (valid_items_not_invalid (items p)) H) as H1.
  pose proof (proj2 (invalidItems_nil (items p)) H1) as H2.
  unfold validateItems. by rewrite H2.
Qed.

(** X1.  The validation effect returns, leaving the world as it is, exactly
    when every item has a non-empty logo or a non-empty text; an empty
    string counts as missing.  In every other case it throws, after logging
    the invalid items in their order. *)
Theorem validation_accepts_exactly_valid_items
    (p : InfiniteSliderProps) (w : World) :
  (validateItems p w = Completed w ↔
     ∀ item, item ∈ items p → hasLogo item = true ∨ hasText item = true)
  ∧ (validateItems p w ≠ Completed w →
     validateItems p w = Threw validationError (rejected p w)
     ∧ console (rejected p w)
       = console w ++ [(validationLog (length (invalidItems (items p))),
                        List.filter isInvalid (items p))]).
Proof.
  pose proof (valid_items_not_invalid (items p)) as Hvalid.
  rewrite <- Hvalid, <- invalidItems_nil. unfold validateItems, rejected.
  change (List.filter isInvalid (items p)) with (invalidItems (items p)).
  destruct (invalidItems (items p)) as [|bad rest] eqn:Hbad; simpl.
  - split; [done|]. intros H. by destruct H.
  - split; [split; intros H; discriminate H|]. intros _. done.
Qed.

(** ** The rendered track *)

Lemma renderBuffer_length (p : InfiniteSliderProps) (st : State) :
  length (renderBuffer p st) = (2 * length (items p))%nat.
Proof. rewrite renderBuffer_app, length_app, !length_imap. lia. Qed.

Lemma renderBuffer_lookup (p : InfiniteSliderProps) (st : State) (j : nat)
    (e : ItemElement) :
  renderBuffer p st !! j = Some e →
  let n := length (items p) in
  ∃ item, items p !! (j mod n)%nat = Some item
          ∧ e = renderItem p st (j / n) (j mod n) item
          ∧ (j / n < 2)%nat.
Proof.
  intros Hj n.
  assert (Hlt : (j < 2 * n)%nat).
  { unfold n. rewrite <- (renderBuffer_length p st). by eapply lookup_lt_Some. }
  assert (Hn : n ≠ 0%nat) by lia.
  rewrite renderBuffer_app in Hj.
  apply lookup_app_Some in Hj as [Hj|[Hge Hj]];
    rewrite ?length_imap in *; rewrite list_lookup_imap in Hj;
    apply fmap_Some in Hj as (item & Hitem & ->).
  - assert (j < n)%nat by by eapply lookup_lt_Some.
    rewrite Nat.mod_small, Nat.div_small by done.
    exists item. split; [done|]. split; [done|lia].
  - fold n in Hge, Hitem |- *.
    assert (j - n < n)%nat by by eapply lookup_lt_Some.
    assert (Hq : (j / n = 1)%nat)
      by (symmetry; apply (Nat.div_unique j n 1 (j - n)); lia).
    assert (Hr : (j mod n = j - n)%nat)
      by (symmetry; apply (Nat.mod_unique j n 1 (j - n)); lia).
    rewrite Hq, Hr. exists item. split; [done|]. split; [done|lia].
Qed.

(** X2.  The track has twice as many children as there are items, and the
    click handler of the child at position [j] reports the item and its
    index within one copy, [j mod n], never the position in the doubled
    track. *)
Theorem click_reports_index_within_one_copy
    (p : InfiniteSliderProps) (st : State) (j : nat) (e : ItemElement) :
  renderBuffer p st !! j = Some e →
  let n := length (items p) in
  length (renderBuffer p st) = (2 * n)%nat
  ∧ (snd (onClick e) = j mod n)%nat
  ∧ (snd (onClick e) < n)%nat
  ∧ items p !! snd (onClick e) = Some (fst (onClick e)).
Proof.
  intros Hj n. split; [apply renderBuffer_length|].
  destruct (renderBuffer_lookup p st j e Hj) as (item & Hitem & -> & _).
  simpl. fold n. split; [done|]. split; [by eapply lookup_lt_Some | done].
Qed.

Lemma click_reports_index_within_one_copy_witness :
  renderBuffer abc activeState !! 4%nat
    = Some (renderItem abc activeState 1 1 (textItem "B"))
  ∧ snd (onClick (renderItem abc activeState 1 1 (textItem "B"))) = 1%nat.
Proof.
  assert (H : renderBuffer abc activeState !! 4%nat
              = Some (renderItem abc activeState 1 1 (textItem "B")))
    by reflexivity.
  split; [exact H|].
  exact (proj1 (proj2 (click_reports_index_within_one_copy abc activeState 4 _ H))).
Defined.

Lemma string_length_app (s t : string) :
  String.length (s +:+ t) = (String.length s + String.length t)%nat.
Proof. induction s as [|c s IH]; simpl; [done|]. by rewrite IH. Qed.

Lemma string_app_inj_2 (s1 s2 t1 t2 : string) :
  String.length t1 = String.length t2 →
  s1 +:+ t1 = s2 +:+ t2 → s1 = s2 ∧ t1 = t2.
Proof.
  revert s2. induction s1 as [|c s1 IH]; intros [|c2 s2] Hlen Heq; simpl in *.
  - done.
  - apply (f_equal String.length) in Heq.
    rewrite !string_length_app in Heq. simpl in Heq. lia.
  - apply (f_equal String.length) in Heq.
    rewrite !string_length_app in Heq. simpl in Heq. lia.
  - injection Heq as -> Heq. destruct (IH s2 Hlen Heq) as [-> ->]. done.
Qed.

(** Positional keys of the two copies identify position and copy. *)
Lemma positionalKey_inj (i i' c c' : nat) :
  (c < 2)%nat → (c' < 2)%nat →
  positionalKey i c = positionalKey i' c' → i = i' ∧ c = c'.
Proof.
  unfold positionalKey. intros Hc Hc' Heq.
  assert (Hlen : String.length ("-" +:+ pretty c)
                 = String.length ("-" +:+ pretty c')).
  { destruct c as [|[|c]], c' as [|[|c']]; try lia; reflexivity. }
  destruct (string_app_inj_2 _ _ _ _ Hlen Heq) as [Hi Hcc].
  split; [by apply (inj pretty) in Hi|].
  destruct c as [|[|c]], c' as [|[|c']]; try lia; try done.
Qed.

(** X3.  When no item carries a usable [id], the keys of all children of
    the track, both copies together, are pairwise different. *)
Theorem keys_distinct_without_ids (p : InfiniteSliderProps) (st : State) :
  (∀ item, item ∈ items p → JS.truthy_str (SliderItem.id item) = false) →
  NoDup (key <$> renderBuffer p st).
Proof.
  intros Hnoid. apply NoDup_alt. intros j j' k Hj Hj'.
  apply list_lookup_fmap_Some in Hj as (e & -> & Hj).
  apply list_lookup_fmap_Some in Hj' as (e' & Hk & Hj').
  destruct (renderBuffer_lookup p st j e Hj) as (item & Hitem & -> & Hc).
  destruct (renderBuffer_lookup p st j' e' Hj') as (item' & Hitem' & -> & Hc').
  assert (Hkey : ∀ (it : SliderItem) i c, it ∈ items p →
            key (renderItem p st c i it) = positionalKey i c).
  { intros it i c Hin. simpl. unfold itemKey.
    specialize (Hnoid it Hin). by destruct (SliderItem.id it) as [[|]|]. }
  rewrite !Hkey in Hk by (eapply list_elem_of_lookup_2; eassumption).
  apply positionalKey_inj in Hk as [Hmod Hdiv]; [|done..].
  set (n := length (items p)) in *.
  assert (n ≠ 0)%nat.
  { intros Hn0. apply lookup_lt_Some in Hitem. fold n in Hitem. lia. }
  rewrite (Nat.div_mod_eq j n), (Nat.div_mod_eq j' n). congruence.
Qed.

Lemma keys_distinct_without_ids_witness :
  (∀ item, item ∈ items abc → JS.truthy_str (SliderItem.id item) = false)
  ∧ NoDup (key <$> renderBuffer abc initialState).
Proof.
  assert (H : ∀ item, item ∈ items abc → JS.truthy_str (SliderItem.id item) = false).
  { apply Forall_forall. repeat constructor. }
  split; [exact H|]. exact (keys_distinct_without_ids abc initialState H).
Defined.

(** X4.  An item is rendered as an empty box exactly when it is one the
    validation rejects; every valid item shows its logo (or the
    placeholder of it), its text, or both, and never more than these
    two. *)
Theorem content_empty_iff_invalid (st : State) (item : SliderItem) :
  (renderContent st item = [] ↔ isInvalid item = true)
  ∧ (length (renderContent st item) <= 2)%nat
  ∧ length (renderContent st item)
    = ((if hasLogo item then 1 else 0) + (if hasText item then 1 else 0))%nat.
Proof.
  unfold renderContent, isInvalid, hasLogo, hasText.
  destruct (shouldLoad st), (JS.truthy_str (SliderItem.logo item)),
           (JS.truthy_str (SliderItem.text item)); simpl;
    repeat split; intros; (done || lia).
Qed.

(** X5.  No [img] is rendered before [shouldLoad] is set: until then an
    item with a logo shows the placeholder, afterwards the image, and
    never both; an item without a logo shows neither. *)
Theorem image_only_once_loading_is_allowed (st : State) (item : SliderItem) :
  (existsb isImg (renderContent st item) = shouldLoad st && hasLogo item)
  ∧ (existsb isPlaceholder (renderContent st item)
     = negb (shouldLoad st) && hasLogo item)
  ∧ (∀ (p : InfiniteSliderProps) (e : ItemElement) (c : Child),
       shouldLoad st = false → e ∈ renderBuffer p st → c ∈ content e →
       isImg c = false).
Proof.
  assert (H1 : existsb isImg (renderContent st item) = shouldLoad st && hasLogo item).
  { unfold renderContent, hasLogo.
    by destruct (shouldLoad st), (JS.truthy_str (SliderItem.logo item)),
                (JS.truthy_str (SliderItem.text item)). }
  split; [exact H1|]. split.
  - unfold renderContent, hasLogo.
    by destruct (shouldLoad st), (JS.truthy_str (SliderItem.logo item)),
                (JS.truthy_str (SliderItem.text item)).
  - intros p e c Hsl [j Hj]%list_elem_of_lookup Hc.
    destruct (renderBuffer_lookup p st j e Hj) as (it & _ & -> & _).
    simpl in Hc. unfold renderContent in Hc. rewrite Hsl in Hc. simpl in Hc.
    destruct (JS.truthy_str (SliderItem.logo it)),
             (JS.truthy_str (SliderItem.text it)); simpl in Hc;
      repeat (apply elem_of_cons in Hc as [-> | Hc]; [done|]);
      by apply elem_of_nil in Hc.
Qed.

(** ** Mounting a valid sequence *)

(** X6.  Mounting a sequence that passes validation commits the track and
    runs the gate.  With lazy loading on, in a host with a window, the gate
    hands the caller's [rootMargin] to the observer's constructor as it
    is: a margin the host does not accept makes the gate throw, the track
    being committed and nothing else done.  In every other case the pass
    completes and does nothing beyond the gate: the preloading and the
    animation effect read the [shouldLoad] of the first render, which is
    [false], so in this pass no image is requested, no timer or frame is
    queued and no property is published, even when lazy loading is switched
    off.  An observer is installed exactly when lazy loading is on and
    there is a window; it observes the committed root with the caller's
    margin. *)
Theorem mount_of_valid_items (p : InfiniteSliderProps) (h : Host) (l : Layout) :
  (∀ item, item ∈ items p → hasLogo item = true ∨ hasText item = true) →
  (lazyLoad p = true → hasWindow h = true →
   acceptsRootMargin h (rootMargin p) = false →
   mount p h l
   = Threw rootMarginError
       (withCommitted (Some (renderBuffer p initialState)) emptyWorld))
  ∧ (lazyLoad p = false ∨ hasWindow h = false
     ∨ acceptsRootMargin h (rootMargin p) = true →
     ∃ w : World,
       mount p h l = Completed w
       ∧ committed w = Some (renderBuffer p initialState)
       ∧ images w = [] ∧ loaders w = [] ∧ timers w = [] ∧ frames w = []
       ∧ resizeListeners w = [] ∧ style w = ∅ ∧ classList w = ∅ ∧ console w = []
       ∧ imagesLoaded (hooks w) = false
       ∧ shouldLoad (hooks w) = negb (lazyLoad p)
       ∧ observers w =
           if lazyLoad p && hasWindow h
           then [{| obsRootMargin := rootMargin p; observing := true;
                    connected := true |}]
           else []).
Proof.
  intros Hvalid.
  set (w0 := withCommitted (Some (renderBuffer p initialState)) emptyWorld).
  assert (Hv : validateItems p w0 = Completed w0)
    by by apply validateItems_valid.
  split.
  - intros Hlazy Hwin Hrm. unfold mount, runEffects. fold w0. rewrite Hv.
    unfold visibilityGate. by rewrite Hlazy, Hwin, Hrm.
  - intros Hok. unfold mount, runEffects. fold w0. rewrite Hv.
    unfold visibilityGate.
    destruct (lazyLoad p), (hasWindow h),
      (acceptsRootMargin h (rootMargin p)) eqn:Hrm; simpl;
      try (eexists; repeat split; done).
    destruct Hok as [?|[?|?]]; done.
Qed.

Lemma mount_of_valid_items_witness :
  (∀ item, item ∈ items abc → hasLogo item = true ∨ hasText item = true)
  ∧ acceptsRootMargin browser (rootMargin abc) = true
  ∧ acceptsRootMargin browser (rootMargin (withRootMargin "1em" abc)) = false
  ∧ (∃ w : World,
       mount abc browser abcLayout = Completed w
       ∧ images w = [] ∧ timers w = []
       ∧ observers w = [{| obsRootMargin := "50px"; observing := true;
                           connected := true |}])
  ∧ mount (withRootMargin "1em" abc) browser abcLayout
    = Threw rootMarginError
        (withCommitted (Some (renderBuffer abc initialState)) emptyWorld).
Proof.
  assert (H : ∀ item, item ∈ items abc → hasLogo item = true ∨ hasText item = true).
  { apply Forall_forall. repeat constructor; by right. }
  assert (Hrm : acceptsRootMargin browser (rootMargin abc) = true) by reflexivity.
  split; [exact H|]. split; [exact Hrm|]. split; [reflexivity|]. split.
  - destruct (proj2 (mount_of_valid_items abc browser abcLayout H)
                (or_intror (or_intror Hrm)))
      as (w & Hm & _ & Hi & _ & Ht & _ & _ & _ & _ & _ & _ & _ & Ho).
    exists w. by repeat split.
  - exact (proj1 (mount_of_valid_items (withRootMargin "1em" abc) browser
                    abcLayout H) eq_refl eq_refl eq_refl).
Defined.

(** ** The observer's callback *)

Lemma disconnect_idemp (o : Observer) : disconnect (disconnect o) = disconnect o.
Proof. reflexivity. Qed.

Lemma alter_disconnect_idemp (k : nat) (os : list Observer) :
  alter disconnect k (alter disconnect k os) = alter disconnect k os.
Proof.
  rewrite list_alter_alter_eq. apply list_alter_ext; [|done].
  intros o _. apply disconnect_idemp.
Qed.

Lemma onIntersection_none (k : nat) (entries : list bool) (w : World) :
  (∀ b, b ∈ entries → b = false) → onIntersection k entries w = w.
Proof.
  unfold onIntersection. revert w.
  induction entries as [|b entries IH]; intros w H; simpl; [done|].
  rewrite (H b) by apply list_elem_of_here.
  apply IH. intros b' Hb'. apply H. by apply list_elem_of_further.
Qed.

(** What the callback does for its first intersecting entry. *)
Lemma onIntersection_fields (k : nat) (entries : list bool) :
  ∀ w : World,
    let m := length (List.filter id entries) in
    let w' := onIntersection k entries w in
    timers w' = timers w ++ replicate m (100%nat, TSetShouldLoad)
    ∧ hooks w' = (if (m =? 0)%nat then hooks w else setIsVisible true (hooks w))
    ∧ observers w'
      = (if (m =? 0)%nat then observers w else alter disconnect k (observers w))
    ∧ frames w' = frames w ∧ style w' = style w ∧ classList w' = classList w
    ∧ images w' = images w ∧ loaders w' = loaders w.
Proof.
  unfold onIntersection.
  induction entries as [|b entries IH]; intros w; simpl.
  - rewrite app_nil_r. done.
  - destruct b; simpl; [|apply IH].
    destruct (IH (withObservers (alter disconnect k)
                   (setTimeout TSetShouldLoad 100
                      (withHooks (setIsVisible true) w))))
      as (Ht & Hh & Ho & Hf & Hs & Hc & Hi & Hl).
    rewrite Ht, Hh, Ho, Hf, Hs, Hc, Hi, Hl. simpl.
    rewrite <- app_assoc. simpl. repeat split.
    + by destruct (Nat.eqb _ _).
    + destruct (Nat.eqb _ _); [done|]. apply alter_disconnect_idemp.
Qed.

Lemma filter_id_true (entries : list bool) :
  true ∈ entries → (0 < length (List.filter id entries))%nat.
Proof.
  intros Hin. apply list_elem_of_In in Hin.
  assert (Hf : In true (List.filter id entries)) by by apply filter_In.
  destruct (List.filter id entries); [destruct Hf | simpl; lia].
Qed.

(** A queue with the tasks of another, one timer taken out, holds no task
    that the other did not hold. *)
Lemma relabelled_elem (q q0 : list (nat * Task)) (i ms : nat) (t : Task) :
  q.*2 = (delete i q0).*2 → (ms, t) ∈ q → ∃ ms0, (ms0, t) ∈ q0.
Proof.
  intros Hq Hin.
  assert (Ht : t ∈ q.*2) by (apply list_elem_of_fmap; by exists (ms, t)).
  rewrite Hq in Ht. apply list_elem_of_fmap in Ht as ([ms0 t0] & -> & Hin0).
  exists ms0. eapply elem_of_sublist; [exact Hin0 | apply sublist_delete].
Qed.

Lemma visibilityGate_Completed (p : InfiniteSliderProps) (h : Host) (w w' : World) :
  visibilityGate p h w = Completed w' →
  w' = withHooks (setShouldLoad true) (withHooks (setIsVisible true) w)
  ∨ w' = w
  ∨ w' = withObservers (λ os, os ++ [newObserver p w]) w.
Proof.
  unfold visibilityGate.
  destruct (lazyLoad p); simpl; [|intros [= <-]; by left].
  destruct (hasWindow h); simpl; [|intros [= <-]; by right; left].
  destruct (acceptsRootMargin h (rootMargin p)); simpl; [|done].
  intros [= <-]. by right; right.
Qed.

Section Gate.

Variable parseFloat : string → JS.number.

(** The order of the host is one of the orders [step] allows. *)
Lemma step_tick (l : Layout) (w : World) :
  timers w ≠ [] → step parseFloat w (tick parseFloat l w).
Proof.
  intros Hne. unfold tick.
  destruct (dueFirst (timers w)) as [[i [ms t]]|] eqn:Hd.
  - apply (step_timer parseFloat i ms t (elapse ms (delete i (timers w))) l w).
    + by apply dueFirst_lookup.
    + apply elapse_tasks.
  - by apply dueFirst_None in Hd.
Qed.

(** X7.  The observer fires once.  A batch without an intersecting entry
    changes nothing.  A batch with one marks the component visible,
    disconnects that observer for good and leaves the others alone; it does
    not set [shouldLoad] itself but queues that for 100ms later, and when
    that timer fires the gate is active. *)
Theorem intersection_activates_after_delay
    (k : nat) (entries : list bool) (w : World) (o : Observer) (l : Layout) :
  observers w !! k = Some o → timers w = [] →
  ((∀ b, b ∈ entries → b = false) → onIntersection k entries w = w)
  ∧ (true ∈ entries →
     let w' := onIntersection k entries w in
     isVisible (hooks w') = true
     ∧ shouldLoad (hooks w') = shouldLoad (hooks w)
     ∧ observers w' !! k
       = Some {| obsRootMargin := obsRootMargin o; observing := false;
                 connected := false |}
     ∧ (∀ j, j ≠ k → observers w' !! j = observers w !! j)
     ∧ (∀ t, t ∈ timers w' → t = (100%nat, TSetShouldLoad))
     ∧ shouldLoad (hooks (tick parseFloat l w')) = true).
Proof.
  intros Hk Ht. split; [apply onIntersection_none|].
  intros Hin w'.
  destruct (onIntersection_fields k entries w) as (Htm & Hh & Ho & _).
  pose proof (filter_id_true entries Hin) as Hm.
  fold w' in Htm, Hh, Ho.
  destruct (length (List.filter id entries)) as [|m] eqn:Hlen; [lia|].
  simpl in Htm, Hh, Ho. rewrite Ht in Htm. simpl in Htm.
  rewrite Hh, Ho. repeat split.
  - by rewrite list_lookup_alter_eq, Hk.
  - intros j Hj. by rewrite list_lookup_alter_ne.
  - intros t. rewrite Htm. intros [->|Hrep]%elem_of_cons; [done|].
    by apply elem_of_replicate in Hrep as [-> _].
  - unfold tick. rewrite Htm, dueFirst_head; [done|].
    by intros x [-> _]%elem_of_replicate.
Qed.

Lemma fire_keeps_gate (t : Task) (l : Layout) (w : World) :
  (isVisible (hooks w) = true → isVisible (hooks (fire parseFloat t l w)) = true)
  ∧ (shouldLoad (hooks w) = true → shouldLoad (hooks (fire parseFloat t l w)) = true).
Proof.
  destruct t; simpl; try done.
  - unfold setupAnimation. by destruct (Nat.eqb _ _).
  - unfold calculateAndSetWidth.
    destruct (Nat.eqb _ _); [done|]. by destruct (JS.gt _ _).
Qed.

Lemma step_keeps_gate (w w' : World) :
  step parseFloat w w' →
  (isVisible (hooks w) = true → isVisible (hooks w') = true)
  ∧ (shouldLoad (hooks w) = true → shouldLoad (hooks w') = true).
Proof.
  intros Hs. destruct Hs as
    [p w w' Hv|p h w w' Hg|p st h w|p st h l w|k entries w|k url ev w
    |i ms t q l w Hi Hq|l w|p w _|c w].
  - unfold validateItems in Hv. destruct (Nat.ltb _ _); [done|].
    by injection Hv as <-.
  - by destruct (visibilityGate_Completed p h w w' Hg) as [-> | [-> | ->]].
  - unfold preloadImages.
    destruct (shouldLoad st), (hasWindow h); simpl; try done.
    by destruct (Nat.eqb _ _).
  - unfold animationEffect.
    destruct (_ || _); [done|]. destruct (hasWindow h); simpl; [|done].
    unfold setupAnimation. by destruct (Nat.eqb _ _).
  - destruct (onIntersection_fields k entries w) as (_ & Hh & _).
    rewrite Hh. by destruct (Nat.eqb _ _).
  - rewrite imageSettled_checkAllLoaded. unfold checkAllLoaded.
    destruct (loaders w !! k) as [ld|]; [|done].
    cbn [totalImages loadedCount]. by destruct (Nat.eqb _ _).
  - apply (fire_keeps_gate t l (withTimers (λ _, q) w)).
  - unfold paint. destruct (frames w) as [|t rest]; [done|].
    apply (fire_keeps_gate t l (withFrames (λ _, rest) w)).
  - done.
  - done.
Qed.

(** X8.  The gate never closes again: whatever effects and events follow,
    in whatever order the host runs the pending timers, a component that
    has become visible stays visible and one that may load keeps that
    permission; no code path sets either cell back to [false]. *)
Theorem gate_never_closes (w w' : World) :
  rtc (step parseFloat) w w' →
  (isVisible (hooks w) = true → isVisible (hooks w') = true)
  ∧ (shouldLoad (hooks w) = true → shouldLoad (hooks w') = true).
Proof.
  intros Hrtc. induction Hrtc as [|x y z Hxy _ IH]; [done|].
  destruct (step_keeps_gate x y Hxy) as [Hv Hs]. destruct IH as [IHv IHs].
  split; auto.
Qed.

End Gate.

Lemma intersection_activates_after_delay_witness :
  let o := {| obsRootMargin := "50px"; observing := true; connected := true |} in
  let w' := onIntersection 0 [false; true] abcMounted in
  observers abcMounted !! 0%nat = Some o ∧ timers abcMounted = []
  ∧ true ∈ [false; true]
  ∧ shouldLoad (hooks w') = false
  ∧ shouldLoad (hooks (tick unusedParseFloat abcLayout w')) = true.
Proof.
  intros o w'.
  assert (Hin : true ∈ [false; true]) by (apply list_elem_of_further, list_elem_of_here).
  destruct (intersection_activates_after_delay unusedParseFloat 0 [false; true]
              abcMounted o abcLayout eq_refl eq_refl) as [_ Hact].
  destruct (Hact Hin) as (_ & Hsl & _ & _ & _ & Hfire).
  split; [reflexivity|]. split; [reflexivity|]. split; [exact Hin|].
  split; [exact Hsl | exact Hfire].
Defined.

Lemma gate_never_closes_witness :
  let w := withHooks (setShouldLoad true) (withHooks (setIsVisible true) emptyWorld) in
  let w' := handleResize abc
              (tick unusedParseFloat abcLayout
                 (animationEffect abc readyState browser abcLayout
                    (withCommitted (Some (renderBuffer abc readyState)) w))) in
  visibilityGate (withLazyLoad false abc) serverHost emptyWorld = Completed w
  ∧ rtc (step unusedParseFloat) w w'
  ∧ shouldLoad (hooks w) = true
  ∧ shouldLoad (hooks w') = true.
Proof.
  intros w w'.
  pose (w1 := withCommitted (Some (renderBuffer abc readyState)) w).
  pose (w2 := animationEffect abc readyState browser abcLayout w1).
  pose (w3 := tick unusedParseFloat abcLayout w2).
  assert (Hrtc : rtc (step unusedParseFloat) w w').
  { apply (rtc_l _ w w1 _ (step_commit _ _ w)).
    apply (rtc_l _ w1 w2 _ (step_animation _ abc readyState browser abcLayout w1)).
    apply (rtc_l _ w2 w3 _ (step_tick _ abcLayout w2 ltac:(done))).
    apply rtc_once. apply (step_resize _ abc w3). apply list_elem_of_here. }
  split; [reflexivity|]. split; [exact Hrtc|]. split; [reflexivity|].
  exact (proj2 (gate_never_closes unusedParseFloat w w' Hrtc) eq_refl).
Defined.

(** ** Preloading *)

Lemma fold_setAdd_sublist (l acc : list string) :
  ∃ k, fold_left setAdd l acc = acc ++ k ∧ k `sublist_of` l.
Proof.
  revert acc. induction l as [|x l IH]; intros acc; simpl.
  - exists []. by rewrite app_nil_r.
  - unfold setAdd at 2. case_bool_decide as Hx.
    + destruct (IH acc) as (k & -> & Hk). exists k. split; [done|].
      by apply sublist_cons.
    + destruct (IH (acc ++ [x])) as (k & -> & Hk). exists (x :: k).
      split; [by rewrite <- app_assoc | by apply sublist_skip].
Qed.

(** X9.  The preloading effect does nothing until [shouldLoad] is set and
    a window exists.  Then it creates one image per distinct non-empty
    logo, in the order of first appearance, however often a logo is
    repeated; with no logo at all it declares the images loaded at once,
    otherwise it leaves readiness to the events of a fresh counter that
    starts at zero. *)
Theorem preload_requests_each_logo_once
    (p : InfiniteSliderProps) (st : State) (h : Host) (w : World) :
  let w' := preloadImages p st h w in
  let urls := imageUrls (items p) in
  (shouldLoad st = false ∨ hasWindow h = false → w' = w)
  ∧ (shouldLoad st = true ∧ hasWindow h = true →
     images w' = images w ++ urls
     ∧ NoDup urls
     ∧ urls `sublist_of` logos (items p)
     ∧ (∀ u, u ∈ urls ↔
          ∃ item, item ∈ items p ∧ SliderItem.logo item = Some u ∧ u ≠ "")
     ∧ (urls = [] → imagesLoaded (hooks w') = true ∧ loaders w' = loaders w)
     ∧ (urls ≠ [] →
        hooks w' = hooks w
        ∧ loaders w' = loaders w
            ++ [{| totalImages := length urls; loadedCount := 0 |}])).
Proof.
  intros w' urls. subst w'. unfold preloadImages. split.
  - intros [-> | ->]; [done|]. by destruct (shouldLoad st).
  - intros [-> ->]. simpl. fold urls.
    assert (Hsub : urls `sublist_of` logos (items p)).
    { destruct (fold_setAdd_sublist (logos (items p)) []) as (k & Hk & Hs).
      unfold urls, imageUrls, arrayFromSet. by rewrite Hk. }
    destruct urls as [|u urls'] eqn:Hurls; simpl.
    + rewrite app_nil_r. repeat split; try done.
      * apply NoDup_nil_2.
      * rewrite <- Hurls. apply elem_of_imageUrls.
      * rewrite <- Hurls. apply elem_of_imageUrls.
    + repeat split; try done.
      * rewrite <- Hurls. apply imageUrls_NoDup.
      * rewrite <- Hurls. apply elem_of_imageUrls.
      * rewrite <- Hurls. apply elem_of_imageUrls.
Qed.

(** ** From the animation effect to the running animation *)

Lemma removed_class_absent (c : gset string) : readyClass ∉ c ∖ {[readyClass]}.
Proof.
  intros [_ Hn]%elem_of_difference. apply Hn. by apply elem_of_singleton.
Qed.

Lemma added_class_present (c : gset string) : readyClass ∈ c ∪ {[readyClass]}.
Proof. apply elem_of_union_r. by apply elem_of_singleton. Qed.

Section Animation.

Variable parseFloat : string → JS.number.

Lemma setupAnimation_with_children (p : InfiniteSliderProps) (l : Layout) (w : World) :
  children l ≠ [] →
  setupAnimation p l w = setTimeout (TCalculateAndSetWidth p) 100 w.
Proof. intros H. unfold setupAnimation. by destruct (children l). Qed.

Lemma pop_only_frame (t : Task) (w : World) :
  frames w = [] → withFrames (λ _, []) (requestAnimationFrame t w) = w.
Proof. destruct w. simpl. by intros ->. Qed.

Lemma paint_only_frame (t : Task) (l : Layout) (w : World) :
  frames w = [] →
  paint parseFloat l (requestAnimationFrame t w) = fire parseFloat t l w.
Proof.
  intros Hw. unfold paint. simpl. rewrite Hw. simpl.
  by rewrite <- (pop_only_frame t w Hw) at 2.
Qed.

(** X10.  Once the track is committed, the gate is active and the images
    are ready, the animation effect registers its resize listener and
    waits 100ms before it measures.  The measurement publishes both
    parameters but does not start the animation; the ready class is added
    only by the animation frame that follows, after which nothing is
    pending. *)
Theorem animation_starts_after_measurement
    (p : InfiniteSliderProps) (st : State) (h : Host) (l : Layout) (w : World) :
  is_Some (committed w) → shouldLoad st = true → imagesLoaded st = true →
  hasWindow h = true → timers w = [] → frames w = [] →
  children l ≠ [] → JS.gt (halfTotalWidth parseFloat p l) 0%float = true →
  let w1 := animationEffect p st h l w in
  let w2 := tick parseFloat l w1 in
  let w3 := paint parseFloat l w2 in
  let rounded := JS.Math_round (halfTotalWidth parseFloat p l) in
  (timers w1 = [(100%nat, TCalculateAndSetWidth p)]
   ∧ resizeListeners w1 = resizeListeners w ++ [p]
   ∧ style w1 = style w ∧ classList w1 = classList w)
  ∧ (style w2 !! "--total-width" = Some (Px rounded)
     ∧ style w2 !! "--scroll-duration"
       = Some (Seconds (scrollDuration rounded (baseWidth p) (duration p) (speed p)))
     ∧ classList w2 = classList w
     ∧ timers w2 = [] ∧ frames w2 = [TAddReadyClass])
  ∧ (classList w3 = classList w ∪ {[readyClass]}
     ∧ style w3 = style w2 ∧ timers w3 = [] ∧ frames w3 = []).
Proof.
  intros Hc Hsl Hil Hwin Ht Hf Hne Hgt w1 w2 w3 rounded.
  assert (H1 : w1 = addResizeListener p
                      (setTimeout (TCalculateAndSetWidth p) 100 w)).
  { unfold w1, animationEffect.
    rewrite Hsl, Hil, Hwin, bool_decide_eq_true_2 by done. simpl.
    by rewrite setupAnimation_with_children. }
  assert (H2 : w2 = calculateAndSetWidth parseFloat p l (addResizeListener p w)).
  { unfold w2, tick. rewrite H1. simpl. rewrite Ht. simpl. f_equal.
    destruct w. simpl in *. by subst. }
  rewrite calculate_publishes in H2 by done. fold rounded in H2.
  assert (H3 : w3 = withClassList (λ c, c ∪ {[readyClass]})
                      (setProperty "--scroll-duration"
                         (Seconds (scrollDuration rounded (baseWidth p)
                                     (duration p) (speed p)))
                         (setProperty "--total-width" (Px rounded)
                            (addResizeListener p w)))).
  { unfold w3. rewrite H2. by rewrite paint_only_frame. }
  rewrite H3, H2, H1. simpl. rewrite Ht, Hf. simpl.
  rewrite lookup_insert_ne, !lookup_insert_eq by done. done.
Qed.

End Animation.

Lemma animation_starts_after_measurement_witness :
  let w := withCommitted (Some (renderBuffer abc readyState)) emptyWorld in
  is_Some (committed w)
  ∧ JS.gt (halfTotalWidth unusedParseFloat abc abcLayout) 0%float = true
  ∧ readyClass ∈ classList
      (paint unusedParseFloat abcLayout
         (tick unusedParseFloat abcLayout
            (animationEffect abc readyState browser abcLayout w))).
Proof.
  intros w.
  assert (Hc : is_Some (committed w)) by (eexists; reflexivity).
  assert (Hne : children abcLayout ≠ []) by done.
  split; [exact Hc|]. split; [reflexivity|].
  destruct (animation_starts_after_measurement unusedParseFloat abc readyState
              browser abcLayout w
              Hc eq_refl eq_refl eq_refl eq_refl eq_refl Hne eq_refl)
    as (_ & _ & Hcl & _).
  rewrite Hcl. apply added_class_present.
Defined.


(** ** The ready class presupposes the parameters *)

Section ReadyInvariant.

Variable parseFloat : string → JS.number.

Lemma published_setProperty (name : string) (v : CssValue) (w : World) :
  published w → published (setProperty name v w).
Proof.
  unfold published. simpl. intros [H1 H2].
  split; rewrite lookup_insert; case_decide; eauto.
Qed.

Lemma calculate_publishes_both (p : InfiniteSliderProps) (l : Layout) (w : World) :
  calculateAndSetWidth parseFloat p l w = w
  ∨ (published (calculateAndSetWidth parseFloat p l w)
     ∧ frames (calculateAndSetWidth parseFloat p l w) = frames w ++ [TAddReadyClass]).
Proof.
  unfold calculateAndSetWidth.
  destruct (Nat.eqb _ _); [by left|]. destruct (JS.gt _ _); [|by left].
  right. split; [|done]. unfold published. simpl.
  rewrite lookup_insert_ne, !lookup_insert_eq by done. eauto.
Qed.

Lemma calculate_other_fields (p : InfiniteSliderProps) (l : Layout) (w : World) :
  timers (calculateAndSetWidth parseFloat p l w) = timers w
  ∧ classList (calculateAndSetWidth parseFloat p l w) = classList w
  ∧ (published w → published (calculateAndSetWidth parseFloat p l w))
  ∧ (∀ t, t ∈ frames (calculateAndSetWidth parseFloat p l w) →
          t ∈ frames w ∨ t = TAddReadyClass).
Proof.
  unfold calculateAndSetWidth.
  destruct (Nat.eqb _ _); [by auto|]. destruct (JS.gt _ _); [|by auto].
  split; [done|]. split; [done|]. split.
  - intros _. unfold published. simpl.
    rewrite lookup_insert_ne, !lookup_insert_eq by done. eauto.
  - simpl. intros t [?| ->%list_elem_of_singleton]%elem_of_app; auto.
Qed.

(** Firing a callback other than the one that adds the ready class. *)
Lemma fire_keeps_readyInvariant (t : Task) (l : Layout) (w : World) :
  t ≠ TAddReadyClass → readyInvariant w →
  readyInvariant (fire parseFloat t l w).
Proof.
  intros Ht [Htm Hrd]. destruct t; simpl; try done.
  - unfold setupAnimation. destruct (Nat.eqb _ _); split; simpl; try done;
      intros ms t [?|[= _ ->]%list_elem_of_singleton]%elem_of_app; eauto.
  - destruct (calculate_other_fields p l w) as (Htm' & Hcl' & Hpub' & Hfr').
    split; [by rewrite Htm'|]. rewrite Hcl'.
    destruct (calculate_publishes_both p l w) as [-> | [Hp _]]; [done|].
    by intros _.
Qed.

Lemma step_keeps_readyInvariant (w w' : World) :
  step parseFloat w w' → readyInvariant w → readyInvariant w'.
Proof.
  intros Hs Hinv. pose proof Hinv as [Htm Hrd]. destruct Hs as
    [p w w' Hv|p h w w' Hg|p st h w|p st h l w|k entries w|k url ev w
    |i ms t q l w Hi Hq|l w|p w _|c w].
  - unfold validateItems in Hv. destruct (Nat.ltb _ _); [done|].
    by injection Hv as <-.
  - by destruct (visibilityGate_Completed p h w w' Hg) as [-> | [-> | ->]].
  - unfold preloadImages.
    destruct (shouldLoad st), (hasWindow h); simpl; try done.
    by destruct (Nat.eqb _ _).
  - unfold animationEffect.
    destruct (_ || _); [done|]. destruct (hasWindow h); simpl; [|done].
    unfold setupAnimation. destruct (Nat.eqb _ _); split; simpl; try done;
      intros ms t [?|[= _ ->]%list_elem_of_singleton]%elem_of_app; eauto.
  - destruct (onIntersection_fields k entries w)
      as (Ht & _ & _ & Hf & Hs & Hc & _).
    clear Hinv. unfold readyInvariant, published in *. rewrite Ht, Hf, Hs, Hc.
    split; [|done].
    intros ms t [?|Hrep]%elem_of_app; [eauto|].
    apply elem_of_replicate in Hrep as [[= _ ->] _]. discriminate.
  - rewrite imageSettled_checkAllLoaded. unfold checkAllLoaded.
    destruct (loaders w !! k) as [ld|]; [|done].
    cbn [totalImages loadedCount]. by destruct (Nat.eqb _ _).
  - apply fire_keeps_readyInvariant.
    + apply (Htm ms). by eapply list_elem_of_lookup_2.
    + split; [|done]. simpl. intros ms' t' Hin.
      destruct (relabelled_elem q (timers w) i ms' t' Hq Hin) as [ms0 Hin0].
      by apply (Htm ms0).
  - unfold paint. destruct (frames w) as [|t rest] eqn:Hq; [done|].
    assert (t = TAddReadyClass ∨ t ≠ TAddReadyClass) as [->|Hne]
      by (destruct t; (by left) || (right; discriminate)).
    + assert (Hp : published w) by (apply Hrd; right; apply list_elem_of_here).
      split; [done|]. by intros _.
    + apply fire_keeps_readyInvariant; [done|]. split; [done|]. simpl.
      intros [Hc|Hin]; apply Hrd; [by left|right].
      by apply list_elem_of_further.
  - split; simpl.
    + intros ms t [?|[= _ ->]%list_elem_of_singleton]%elem_of_app; eauto.
    + intros [Hin|Hin]; [|apply Hrd; by right].
      apply elem_of_difference in Hin as [_ Hn].
      destruct Hn. by apply elem_of_singleton.
  - done.
Qed.

Lemma rtc_keeps_readyInvariant (w w' : World) :
  rtc (step parseFloat) w w' → readyInvariant w → readyInvariant w'.
Proof.
  intros Hrtc. induction Hrtc as [|x y z Hxy _ IH]; [done|].
  intros Hx. by eapply IH, step_keeps_readyInvariant.
Qed.

Lemma readyInvariant_emptyWorld : readyInvariant emptyWorld.
Proof.
  split; simpl.
  - intros ms t Hin. by apply elem_of_nil in Hin.
  - intros [Hin|Hin]; [set_solver | by apply elem_of_nil in Hin].
Qed.

(** X11.  The animation is never marked ready without its parameters: in
    every state a component can reach from its creation, by any effects
    and events and with the pending timers run in any order, the ready
    class on the track implies that both [--total-width] and
    [--scroll-duration] have been set. *)
Theorem ready_class_implies_parameters (w : World) :
  rtc (step parseFloat) emptyWorld w →
  readyClass ∈ classList w → published w.
Proof.
  intros Hrtc Hc.
  pose proof (rtc_keeps_readyInvariant _ _ Hrtc readyInvariant_emptyWorld)
    as [_ Hrd].
  apply Hrd. by left.
Qed.

End ReadyInvariant.

Lemma abcRunning_reachable : rtc (step unusedParseFloat) emptyWorld abcRunning.
Proof.
  pose (w1 := animationEffect abc readyState browser abcLayout abcCommitted).
  pose (w2 := tick unusedParseFloat abcLayout w1).
  apply (rtc_l _ emptyWorld abcCommitted _
           (step_commit _ (Some (renderBuffer abc readyState)) emptyWorld)).
  apply (rtc_l _ abcCommitted w1 _
           (step_animation _ abc readyState browser abcLayout abcCommitted)).
  apply (rtc_l _ w1 w2 _ (step_tick _ abcLayout w1 ltac:(done))).
  apply rtc_once. exact (step_frame unusedParseFloat abcLayout w2).
Defined.

Lemma ready_class_implies_parameters_witness :
  rtc (step unusedParseFloat) emptyWorld abcRunning
  ∧ readyClass ∈ classList abcRunning
  ∧ published abcRunning.
Proof.
  assert (Hc : readyClass ∈ classList abcRunning)
    by (apply (bool_decide_unpack _); vm_compute; exact I).
  split; [exact abcRunning_reachable|]. split; [exact Hc|].
  exact (ready_class_implies_parameters unusedParseFloat abcRunning
           abcRunning_reachable Hc).
Defined.

(** ** Resizing *)

Section Resize.

Variable parseFloat : string → JS.number.

(** Taking the ready class off, setting both properties and putting the
    class back, done twice, is the same as done once. *)
Lemma republish_idemp (vt vd : CssValue) (w : World) :
  let republish w0 :=
    withClassList (λ c, c ∪ {[readyClass]})
      (setProperty "--scroll-duration" vd
         (setProperty "--total-width" vt
            (withClassList (λ c, c ∖ {[readyClass]}) w0))) in
  republish (republish w) = republish w.
Proof.
  destruct w as [hk cm cs ob im ld tm fr rl sty cl].
  cbv beta zeta iota delta
    [withClassList setProperty hooks committed console observers images
     loaders timers frames resizeListeners style classList].
  f_equal.
  - apply map_eq. intros name. rewrite !lookup_insert.
    repeat case_decide; done.
  - apply set_eq. intros x.
    rewrite !elem_of_union, !elem_of_difference, !elem_of_union,
      !elem_of_difference. tauto.
Qed.

Lemma settleTimers_eq (p : InfiniteSliderProps) (l : Layout) (w : World) :
  timers w = [] → children l ≠ [] →
  settleTimers parseFloat p l w
  = calculateAndSetWidth parseFloat p l
      (withClassList (λ c, c ∖ {[readyClass]}) w).
Proof.
  intros Ht Hne. unfold settleTimers, handleResize.
  rewrite tick_only_timer by done. cbn [fire].
  rewrite setupAnimation_with_children by done.
  by rewrite tick_only_timer.
Qed.

Lemma resizeCycle_eq (p : InfiniteSliderProps) (l : Layout) (w : World) :
  timers w = [] → frames w = [] → children l ≠ [] →
  JS.gt (halfTotalWidth parseFloat p l) 0%float = true →
  resizeCycle parseFloat p l w
  = withClassList (λ c, c ∪ {[readyClass]})
      (setProperty "--scroll-duration"
         (Seconds (scrollDuration (JS.Math_round (halfTotalWidth parseFloat p l))
                     (baseWidth p) (duration p) (speed p)))
         (setProperty "--total-width"
            (Px (JS.Math_round (halfTotalWidth parseFloat p l)))
            (withClassList (λ c, c ∖ {[readyClass]}) w))).
Proof.
  intros Ht Hf Hne Hgt. unfold resizeCycle.
  rewrite settleTimers_eq, calculate_publishes by done.
  by rewrite paint_only_frame.
Qed.

(** X12.  A resize that arrives while no timer and no frame is pending
    pauses the animation at once: the handler takes the ready class off
    the track before anything is measured again.  When the two timers and
    the frame it leads to have run on a layout with a positive width, the
    parameters are those of that layout and the ready class is back; the
    other properties of the track are untouched, nothing stays queued, and
    a further resize on the same layout reproduces the very same state. *)
Theorem resize_remeasures_and_is_idempotent
    (p : InfiniteSliderProps) (l : Layout) (w : World) :
  timers w = [] → frames w = [] → children l ≠ [] →
  JS.gt (halfTotalWidth parseFloat p l) 0%float = true →
  let rounded := JS.Math_round (halfTotalWidth parseFloat p l) in
  let w' := resizeCycle parseFloat p l w in
  (readyClass ∉ classList (handleResize p w))
  ∧ (readyClass ∉ classList (settleTimers parseFloat p l w))
  ∧ style w' !! "--total-width" = Some (Px rounded)
  ∧ style w' !! "--scroll-duration"
    = Some (Seconds (scrollDuration rounded (baseWidth p) (duration p) (speed p)))
  ∧ (∀ name, name ≠ "--total-width" → name ≠ "--scroll-duration" →
       style w' !! name = style w !! name)
  ∧ readyClass ∈ classList w'
  ∧ timers w' = [] ∧ frames w' = []
  ∧ resizeCycle parseFloat p l w' = w'.
Proof.
  intros Ht Hf Hne Hgt rounded w'.
  assert (Hw' : w' = withClassList (λ c, c ∪ {[readyClass]})
      (setProperty "--scroll-duration"
         (Seconds (scrollDuration rounded (baseWidth p) (duration p) (speed p)))
         (setProperty "--total-width" (Px rounded)
            (withClassList (λ c, c ∖ {[readyClass]}) w))))
    by by apply resizeCycle_eq.
  split; [apply removed_class_absent|]. split.
  { rewrite settleTimers_eq, calculate_publishes by done.
    apply removed_class_absent. }
  assert (Ht' : timers w' = []) by by rewrite Hw'.
  assert (Hf' : frames w' = []) by by rewrite Hw'.
  split; [rewrite Hw'; simpl; by rewrite lookup_insert_ne, lookup_insert_eq|].
  split; [rewrite Hw'; simpl; by rewrite lookup_insert_eq|].
  split; [intros name H1 H2; rewrite Hw'; simpl; by rewrite !lookup_insert_ne|].
  split; [rewrite Hw'; apply added_class_present|].
  split; [done|]. split; [done|].
  rewrite resizeCycle_eq by done. fold rounded. rewrite Hw'.
  apply republish_idemp.
Qed.

(** X13.  When a resize arrives while no timer and no frame is pending and
    the layout found after it yields no positive width, the animation
    stays paused: once the two timers of the resize have run the ready
    class is gone, no frame and no timer is pending that could bring it
    back, and the parameters of the earlier layout are left on the track
    as they were. *)
Theorem resize_without_width_stays_paused
    (p : InfiniteSliderProps) (l : Layout) (w : World) :
  timers w = [] → frames w = [] → children l ≠ [] →
  JS.gt (halfTotalWidth parseFloat p l) 0%float = false →
  let w' := settleTimers parseFloat p l w in
  (readyClass ∉ classList w')
  ∧ style w' = style w
  ∧ timers w' = [] ∧ frames w' = []
  ∧ paint parseFloat l w' = w'.
Proof.
  intros Ht Hf Hne Hgt w'.
  assert (Hw' : w' = withClassList (λ c, c ∖ {[readyClass]}) w).
  { unfold w'. rewrite settleTimers_eq by done.
    apply calculate_keeps. by right. }
  rewrite Hw'. simpl. rewrite Ht, Hf.
  split; [apply removed_class_absent|]. repeat split; try done.
  unfold paint. simpl. by rewrite Hf.
Qed.

End Resize.

Lemma resize_remeasures_and_is_idempotent_witness :
  timers abcRunning = [] ∧ frames abcRunning = []
  ∧ children abcLayout ≠ []
  ∧ JS.gt (halfTotalWidth unusedParseFloat abc abcLayout) 0%float = true
  ∧ (readyClass ∉ classList (handleResize abc abcRunning))
  ∧ resizeCycle unusedParseFloat abc abcLayout
      (resizeCycle unusedParseFloat abc abcLayout abcRunning)
    = resizeCycle unusedParseFloat abc abcLayout abcRunning.
Proof.
  assert (Hne : children abcLayout ≠ []) by done.
  destruct (resize_remeasures_and_is_idempotent unusedParseFloat abc abcLayout
              abcRunning eq_refl eq_refl Hne eq_refl)
    as (Hpause & _ & _ & _ & _ & _ & _ & _ & Hidem).
  split; [reflexivity|]. split; [reflexivity|]. split; [exact Hne|].
  split; [reflexivity|]. split; [exact Hpause | exact Hidem].
Defined.

Lemma resize_without_width_stays_paused_witness :
  timers abcRunning = [] ∧ frames abcRunning = []
  ∧ children collapsedLayout ≠ []
  ∧ JS.gt (halfTotalWidth parseZeroPx abc collapsedLayout) 0%float = false
  ∧ (readyClass ∉ classList (settleTimers parseZeroPx abc collapsedLayout abcRunning))
  ∧ style (settleTimers parseZeroPx abc collapsedLayout abcRunning)
    = style abcRunning.
Proof.
  assert (Hne : children collapsedLayout ≠ []) by done.
  destruct (resize_without_width_stays_paused parseZeroPx abc collapsedLayout
              abcRunning eq_refl eq_refl Hne eq_refl)
    as (Hpause & Hstyle & _).
  split; [reflexivity|]. split; [reflexivity|]. split; [exact Hne|].
  split; [reflexivity|]. split; [exact Hpause | exact Hstyle].
Defined.

(** ** Teardown *)

Section Teardown.

Variable parseFloat : string → JS.number.

(** X14.  The cleanup of the animation effect removes the resize listener
    and nothing else: it cancels no timer.  When the effect has started to
    poll an empty track, the retry is still pending after the cleanup and
    keeps re-arming itself for as long as the track has no children. *)
Theorem cleanup_leaves_polling_running
    (p : InfiniteSliderProps) (st : State) (h : Host) (l : Layout)
    (layouts : nat → Layout) (w : World) (n k : nat) :
  is_Some (committed w) → shouldLoad st = true → imagesLoaded st = true →
  hasWindow h = true → timers w = [] →
  children l = [] →
  (∀ j, (k <= j < k + n)%nat → children (layouts j) = []) →
  let mounted := animationEffect p st h l w in
  let torn := animationCleanup (length (resizeListeners w)) mounted in
  resizeListeners mounted = resizeListeners w ++ [p]
  ∧ resizeListeners torn = resizeListeners w
  ∧ timers torn = timers mounted
  ∧ retryPending p (run parseFloat n layouts k torn).
Proof.
  intros Hc Hsl Hil Hwin Ht Hl Hempty mounted torn.
  assert (Hm : mounted = addResizeListener p (setTimeout (TSetupAnimation p) 50 w)).
  { unfold mounted, animationEffect.
    rewrite Hsl, Hil, Hwin, bool_decide_eq_true_2 by done. simpl.
    unfold setupAnimation. by rewrite Hl. }
  assert (Htorn : torn = setTimeout (TSetupAnimation p) 50 w).
  { unfold torn. rewrite Hm. destruct w.
    unfold animationCleanup, addResizeListener, setTimeout, withTimers. simpl.
    f_equal. rewrite delete_middle. apply app_nil_r. }
  split; [by rewrite Hm|]. split; [by rewrite Htorn|].
  split; [by rewrite Htorn, Hm|].
  rewrite Htorn, run_while_empty by done.
  unfold retryPending. simpl. rewrite Ht. apply list_elem_of_here.
Qed.

End Teardown.

Lemma cleanup_leaves_polling_running_witness :
  let w := withCommitted (Some (renderBuffer (defaultProps []) readyState))
             emptyWorld in
  is_Some (committed w) ∧ timers w = [] ∧ children noChildren = []
  ∧ (∀ j, (0 <= j < 0 + 9)%nat → children ((λ _, noChildren) j) = [])
  ∧ retryPending (defaultProps [])
      (run unusedParseFloat 9 (λ _, noChildren) 0
         (animationCleanup 0
            (animationEffect (defaultProps []) readyState browser noChildren w))).
Proof.
  intros w.
  assert (Hc : is_Some (committed w)) by (eexists; reflexivity).
  split; [exact Hc|]. split; [reflexivity|]. split; [reflexivity|].
  split; [done|].
  exact (proj2 (proj2 (proj2 (cleanup_leaves_polling_running unusedParseFloat
           (defaultProps []) readyState browser noChildren (λ _, noChildren)
           w 9 0 Hc eq_refl eq_refl eq_refl eq_refl eq_refl (λ _ _, eq_refl))))).
Defined.

(** ** A width that rounds to zero *)

Section TinyWidth.

Local Open Scope Z_scope.

Lemma SFltb_positive (x : spec_float) :
  SFltb (S754_zero false) x = true →
  x = S754_infinity false ∨ ∃ m e, x = S754_finite false m e.
Proof.
  unfold SFltb, SFcompare.
  destruct x as [s|s| |s m e]; try destruct s; try discriminate.
  - by left.
  - right. by eexists _, _.
Qed.

Lemma SFltb_finite (m M : positive) (e E : Z) :
  SFltb (S754_finite false m e) (S754_finite false M E) = true →
  e < E ∨ (e = E ∧ Zpos m < Zpos M).
Proof.
  unfold SFltb, SFcompare.
  destruct (Z.compare_spec e E) as [-> | Hlt | Hgt]; [|by left|discriminate].
  intros H. right. split; [done|]. apply Pos2Z.pos_lt_pos.
  unfold Pos.lt, Pos.compare.
  destruct (Pos.compare_cont Eq m M); simpl in H; congruence.
Qed.

(** [Math.round] takes every number between zero and one half to zero. *)
Lemma Math_round_below_half (x : float) :
  JS.gt x 0%float = true → JS.lt x 0.5%float = true → JS.Math_round x = 0%float.
Proof.
  unfold JS.gt, JS.lt, JS.Math_round.
  rewrite !FloatAxioms.ltb_spec.
  change (Prim2SF 0%float) with (S754_zero false).
  change (Prim2SF 0.5%float) with (S754_finite false 4503599627370496 (-53)).
  pose proof (Prim2SF_valid x) as Hv.
  intros [Hx | (m & e & Hx)]%SFltb_positive; rewrite Hx in *; [discriminate|].
  intros Hlt%SFltb_finite.
  assert (He : e <= -53 ∧ 2 * Zpos m < 2 ^ (- e)).
  { destruct Hlt as [Hlt | [-> Hm]].
    - split; [lia|].
      unfold SpecFloat.valid_binary, bounded, canonical_mantissa in Hv.
      rewrite fexp_binary64 in Hv. apply andb_prop in Hv as [Hc _].
      apply Z.eqb_eq in Hc.
      pose proof (digits2_pos_bounds m) as [_ Hm].
      assert (Hd : Zpos (digits2_pos m) <= 53) by lia.
      assert (Zpos m < 2 ^ 53).
      { eapply Z.lt_le_trans; [exact Hm|]. apply Z.pow_le_mono_r; lia. }
      assert (2 ^ 54 <= 2 ^ (- e)) by (apply Z.pow_le_mono_r; lia).
      change (2 ^ 53) with 9007199254740992 in *.
      change (2 ^ 54) with 18014398509481984 in *. lia.
    - split; [lia|]. change (2 ^ (- (-53))) with 9007199254740992. lia. }
  destruct He as [He Hm].
  assert (H0 : (0 <=? e) = false) by (apply Z.leb_gt; lia).
  rewrite H0. cbn [cond_Zopp].
  assert (Hn : (2 * Zpos m + 2 ^ (- e)) / (2 * 2 ^ (- e)) = 0).
  { apply Z.div_small.
    assert (0 < 2 ^ (- e)) by (apply Z.pow_pos_nonneg; lia). lia. }
  rewrite Hn. reflexivity.
Qed.

Variable parseFloat : string → JS.number.

(** X15.  The width is tested before it is rounded.  A width above zero
    and below one half passes the test and is then rounded to zero: the
    track gets [--total-width: 0px] and the duration computed from a zero
    distance, and the frame that follows starts the animation all the
    same. *)
Theorem tiny_width_is_published_as_zero
    (p : InfiniteSliderProps) (l : Layout) (w : World) :
  children l ≠ [] → frames w = [] →
  JS.gt (halfTotalWidth parseFloat p l) 0%float = true →
  JS.lt (halfTotalWidth parseFloat p l) 0.5%float = true →
  let w' := calculateAndSetWidth parseFloat p l w in
  style w' !! "--total-width" = Some (Px 0%float)
  ∧ style w' !! "--scroll-duration"
    = Some (Seconds (scrollDuration 0%float (baseWidth p) (duration p) (speed p)))
  ∧ frames w' = [TAddReadyClass]
  ∧ readyClass ∈ classList (paint parseFloat l w').
Proof.
  intros Hne Hf Hgt Hlt w'.
  assert (Hw' : w' = requestAnimationFrame TAddReadyClass
      (setProperty "--scroll-duration"
         (Seconds (scrollDuration 0%float (baseWidth p) (duration p) (speed p)))
         (setProperty "--total-width" (Px 0%float) w))).
  { unfold w'. rewrite calculate_publishes by done.
    cbv zeta. by rewrite Math_round_below_half. }
  split; [rewrite Hw'; simpl; by rewrite lookup_insert_ne, lookup_insert_eq|].
  split; [rewrite Hw'; simpl; by rewrite lookup_insert_eq|].
  split; [rewrite Hw'; simpl; by rewrite Hf|].
  rewrite Hw', paint_only_frame by done. apply added_class_present.
Qed.

End TinyWidth.

Lemma tiny_width_is_published_as_zero_witness :
  let w' := calculateAndSetWidth parseEighthPx abc tinyLayout abcCommitted in
  children tinyLayout ≠ [] ∧ frames abcCommitted = []
  ∧ halfTotalWidth parseEighthPx abc tinyLayout = 0.25%float
  ∧ style w' !! "--total-width" = Some (Px 0%float)
  ∧ style w' !! "--scroll-duration" = Some (Seconds 0%float)
  ∧ readyClass ∈ classList (paint parseEighthPx tinyLayout w').
Proof.
  intros w'.
  assert (Hne : children tinyLayout ≠ []) by done.
  destruct (tiny_width_is_published_as_zero parseEighthPx abc tinyLayout
              abcCommitted Hne eq_refl eq_refl eq_refl)
    as (Hw & Hd & _ & Hc).
  split; [exact Hne|]. split; [reflexivity|]. split; [reflexivity|].
  split; [exact Hw|]. split; [exact Hd | exact Hc].
Defined.

(** ** The cleanup of the gate *)

Lemma withObservers_fix (f : list Observer → list Observer) (w : World) :
  f (observers w) = observers w → withObservers f w = w.
Proof. intros H. destruct w. unfold withObservers. simpl in *. by rewrite H. Qed.

Section GateCleanup.

Variable parseFloat : string → JS.number.

(** X16.  The cleanup of the gate disconnects the observer and cancels
    nothing.  Before an intersection it leaves that observer disconnected
    and the others as they are.  After one it changes nothing at all, the
    callback having disconnected the observer already; the delayed
    [setShouldLoad] stays queued and, when it fires, activates the gate of
    a component whose effect has been cleaned up. *)
Theorem gate_cleanup_keeps_pending_activation
    (k : nat) (entries : list bool) (w : World) (l : Layout) :
  timers w = [] → true ∈ entries →
  let w' := onIntersection k entries w in
  (observers (gateCleanup k w) !! k = disconnect <$> observers w !! k
   ∧ (∀ j, j ≠ k → observers (gateCleanup k w) !! j = observers w !! j)
   ∧ timers (gateCleanup k w) = timers w)
  ∧ gateCleanup k w' = w'
  ∧ (∀ t, t ∈ timers (gateCleanup k w') → t = (100%nat, TSetShouldLoad))
  ∧ timers (gateCleanup k w') ≠ []
  ∧ shouldLoad (hooks (tick parseFloat l (gateCleanup k w'))) = true.
Proof.
  intros Ht Hin w'.
  destruct (onIntersection_fields k entries w) as (Htm & _ & Ho & _).
  pose proof (filter_id_true entries Hin) as Hm.
  fold w' in Htm, Ho.
  destruct (length (List.filter id entries)) as [|m] eqn:Hlen; [lia|].
  simpl in Htm, Ho. rewrite Ht in Htm. simpl in Htm.
  assert (Hfix : gateCleanup k w' = w').
  { apply withObservers_fix. rewrite Ho. apply alter_disconnect_idemp. }
  split.
  { unfold gateCleanup. simpl. split; [apply list_lookup_alter_eq|].
    split; [|done]. intros j Hj. by apply list_lookup_alter_ne. }
  split; [exact Hfix|]. rewrite Hfix, Htm. split.
  { intros t [->|Hrep]%elem_of_cons; [done|].
    by apply elem_of_replicate in Hrep as [-> _]. }
  split; [done|]. unfold tick. rewrite Htm, dueFirst_head; [done|].
  by intros x [-> _]%elem_of_replicate.
Qed.

End GateCleanup.

Lemma gate_cleanup_keeps_pending_activation_witness :
  let w' := onIntersection 0 [true] abcMounted in
  timers abcMounted = [] ∧ true ∈ [true]
  ∧ shouldLoad (hooks (gateCleanup 0 w')) = false
  ∧ shouldLoad (hooks (tick unusedParseFloat abcLayout (gateCleanup 0 w'))) = true.
Proof.
  intros w'.
  assert (Hin : true ∈ [true]) by apply list_elem_of_here.
  destruct (gate_cleanup_keeps_pending_activation unusedParseFloat 0 [true]
              abcMounted abcLayout eq_refl Hin) as (_ & _ & _ & _ & Hfire).
  split; [reflexivity|]. split; [exact Hin|]. split; [reflexivity | exact Hfire].
Defined.

(** ** From mounting to the running animation *)

Lemma imageUrls_without_logos (its : list SliderItem) :
  (∀ item, item ∈ its → hasLogo item = false) → imageUrls its = [].
Proof.
  intros H. unfold imageUrls.
  assert (Hl : logos its = []); [|by rewrite Hl].
  unfold logos. induction its as [|x its IH]; [done|]. simpl.
  assert (Hx : JS.truthy_str (SliderItem.logo x) = false)
    by apply H, list_elem_of_here.
  rewrite Hx. apply IH. intros item Hin. by apply H, list_elem_of_further.
Qed.

Section Lifecycle.

Variable parseFloat : string → JS.number.

(** X17.  A sequence of text-only items with lazy loading switched off
    reaches the running animation in three render passes and without any
    request: the first pass opens the gate, the second finds no image to
    wait for and declares the images loaded, and only the third, which
    reads that state, measures the track.  The animation effect of the
    second pass still reads [imagesLoaded] as [false] and does nothing.  At
    the end the parameters are published, the ready class is set, one
    resize listener is registered, and no observer, image or timer
    exists. *)
Theorem text_only_slider_starts_in_three_passes
    (p : InfiniteSliderProps) (h : Host) (l : Layout) :
  lazyLoad p = false → hasWindow h = true →
  (∀ item, item ∈ items p → hasLogo item = false ∧ hasText item = true) →
  children l ≠ [] → JS.gt (halfTotalWidth parseFloat p l) 0%float = true →
  ∃ w1 : World,
    mount p h l = Completed w1
    ∧ let w2 := preloadImages p (hooks w1) h (rerender p w1) in
      let w3 := animationEffect p (hooks w2) h l (rerender p w2) in
      let w4 := paint parseFloat l (tick parseFloat l w3) in
      let rounded := JS.Math_round (halfTotalWidth parseFloat p l) in
      hooks w1 = activeState ∧ timers w1 = [] ∧ resizeListeners w1 = []
      ∧ animationEffect p (hooks w1) h l w2 = w2
      ∧ hooks w2 = readyState ∧ timers w2 = []
      ∧ timers w3 = [(100%nat, TCalculateAndSetWidth p)]
      ∧ style w4 !! "--total-width" = Some (Px rounded)
      ∧ style w4 !! "--scroll-duration"
        = Some (Seconds (scrollDuration rounded (baseWidth p) (duration p) (speed p)))
      ∧ classList w4 = {[readyClass]}
      ∧ committed w4 = Some (renderBuffer p readyState)
      ∧ resizeListeners w4 = [p]
      ∧ observers w4 = [] ∧ images w4 = [] ∧ loaders w4 = []
      ∧ timers w4 = [] ∧ frames w4 = [] ∧ console w4 = [].
Proof.
  intros Hlazy Hwin Htext Hne Hgt.
  set (w0 := withCommitted (Some (renderBuffer p initialState)) emptyWorld).
  set (w1 := withHooks (setShouldLoad true) (withHooks (setIsVisible true) w0)).
  assert (Hv : validateItems p w0 = Completed w0).
  { apply validateItems_valid. intros item Hin. right. by apply Htext. }
  assert (Hurls : imageUrls (items p) = []).
  { apply imageUrls_without_logos. intros item Hin. by apply Htext. }
  exists w1. split.
  { unfold mount, runEffects. fold w0. rewrite Hv.
    unfold visibilityGate. by rewrite Hlazy. }
  intros w2 w3 w4 rounded.
  assert (H2 : w2 = withHooks (setImagesLoaded true) (rerender p w1)).
  { unfold w2, preloadImages. rewrite Hwin, Hurls. done. }
  assert (H3 : w3 = addResizeListener p
                      (setTimeout (TCalculateAndSetWidth p) 100 (rerender p w2))).
  { unfold w3, animationEffect. rewrite H2, Hwin. simpl.
    by rewrite setupAnimation_with_children. }
  assert (H4 : w4 = withClassList (λ c, c ∪ {[readyClass]})
                      (setProperty "--scroll-duration"
                         (Seconds (scrollDuration rounded (baseWidth p)
                                     (duration p) (speed p)))
                         (setProperty "--total-width" (Px rounded)
                            (addResizeListener p (rerender p w2))))).
  { unfold w4. rewrite H3.
    assert (Ht : tick parseFloat l
                   (addResizeListener p
                      (setTimeout (TCalculateAndSetWidth p) 100 (rerender p w2)))
                 = calculateAndSetWidth parseFloat p l
                     (addResizeListener p (rerender p w2))).
    { rewrite H2. reflexivity. }
    rewrite Ht, calculate_publishes by done. fold rounded.
    rewrite paint_only_frame; [done|]. by rewrite H2. }
  split; [done|]. split; [done|]. split; [done|].
  split; [unfold animationEffect; by rewrite H2|].
  split; [by rewrite H2|]. split; [by rewrite H2|].
  split; [by rewrite H3, H2|].
  rewrite H4, H2. simpl.
  rewrite lookup_insert_ne, !lookup_insert_eq by done.
  repeat split.
Qed.

End Lifecycle.

Lemma text_only_slider_starts_in_three_passes_witness :
  let p := withLazyLoad false abc in
  (∀ item, item ∈ items p → hasLogo item = false ∧ hasText item = true)
  ∧ children abcLayout ≠ []
  ∧ JS.gt (halfTotalWidth unusedParseFloat p abcLayout) 0%float = true
  ∧ ∃ w1 : World,
      mount p browser abcLayout = Completed w1 ∧ hooks w1 = activeState.
Proof.
  intros p.
  assert (Htext : ∀ item, item ∈ items p → hasLogo item = false ∧ hasText item = true).
  { apply Forall_forall. repeat constructor. }
  assert (Hne : children abcLayout ≠ []) by done.
  split; [exact Htext|]. split; [exact Hne|]. split; [reflexivity|].
  destruct (text_only_slider_starts_in_three_passes unusedParseFloat p browser
              abcLayout eq_refl eq_refl Htext Hne eq_refl)
    as (w1 & Hm & Hh & _).
  exists w1. by split.
Defined.

(** ** A gap that does not parse *)

Section UnparsableGap.

Local Open Scope float_scope.

Lemma isNaN_add_r (x y : float) : JS.isNaN y = true → JS.isNaN (x + y) = true.
Proof.
  unfold JS.isNaN. rewrite add_spec.
  destruct (Prim2SF y); try discriminate. intros _.
  by destruct (Prim2SF x).
Qed.

Lemma isNaN_mul_l (x y : float) : JS.isNaN x = true → JS.isNaN (x * y) = true.
Proof.
  unfold JS.isNaN. rewrite mul_spec.
  destruct (Prim2SF x); try discriminate. intros _.
  by destruct (Prim2SF y).
Qed.

Lemma isNaN_not_gt (x : float) : JS.isNaN x = true → JS.gt x 0 = false.
Proof.
  unfold JS.isNaN, JS.gt. rewrite FloatAxioms.ltb_spec.
  by destruct (Prim2SF x).
Qed.

Lemma isNaN_needsManual (x : float) : JS.isNaN x = true → needsManual x = true.
Proof.
  intros H. unfold needsManual, JS.truthy. rewrite H, orb_true_r. simpl.
  by rewrite orb_true_r.
Qed.

Variable parseFloat : string → JS.number.

(** X18.  When the computed gap is a non-empty string that [parseFloat]
    turns into [NaN], only the primary tier can still produce a width.  With
    fewer than two copies on the track, or with a primary width that calls
    for the manual tier, the width is [NaN]; the measurement then
    publishes nothing and requests no frame, and the [gap] prop is not
    consulted. *)
Theorem unparsable_gap_publishes_nothing
    (p : InfiniteSliderProps) (l : Layout) (w : World) :
  JS.truthy_str (computedGap l) = true →
  JS.isNaN (parseFloat (default "" (computedGap l))) = true →
  (length (children l) < 2 * length (items p))%nat
  ∨ needsManual (primaryWidth (children l) (length (items p))) = true →
  JS.isNaN (halfTotalWidth parseFloat p l) = true
  ∧ calculateAndSetWidth parseFloat p l w = w
  ∧ ∀ g, halfTotalWidth parseFloat (withGap g p) l = halfTotalWidth parseFloat p l.
Proof.
  intros Hs Hnan Htier.
  assert (Hgap : ∀ g, gapPx parseFloat l g = parseFloat (default "" (computedGap l))).
  { intros g. unfold gapPx. by rewrite Hs. }
  assert (Hmanual : ∀ g, needsManual (measuredWidth parseFloat (withGap g p) l) = true).
  { intros g. unfold measuredWidth. cbn [items withGap].
    destruct (Nat.leb_spec (length (items p) * 2) (length (children l))) as [H2|H2].
    - destruct Htier as [Hlt|Hm]; [lia|done].
    - destruct (length (items p) <=? length (children l))%nat; [|done].
      apply isNaN_needsManual. unfold secondaryWidth.
      apply isNaN_add_r. by rewrite Hgap. }
  assert (Hwidth : ∀ g, halfTotalWidth parseFloat (withGap g p) l
                        = manualWidth parseFloat p l).
  { intros g. unfold halfTotalWidth. rewrite Hmanual.
    unfold manualWidth. cbn [items withGap]. by rewrite !Hgap. }
  assert (Hp : withGap (gap p) p = p) by by destruct p.
  assert (Hh : halfTotalWidth parseFloat p l = manualWidth parseFloat p l)
    by (rewrite <- Hp at 1; apply Hwidth).
  assert (Hn : JS.isNaN (halfTotalWidth parseFloat p l) = true).
  { rewrite Hh. unfold manualWidth.
    apply isNaN_add_r, isNaN_mul_l. by rewrite Hgap. }
  split; [exact Hn|]. split.
  - apply calculate_keeps. right. by apply isNaN_not_gt.
  - intros g. by rewrite Hwidth, Hh.
Qed.

End UnparsableGap.

Lemma unparsable_gap_publishes_nothing_witness :
  JS.truthy_str (computedGap narrowLayout) = true
  ∧ JS.isNaN (unusedParseFloat (default "" (computedGap narrowLayout))) = true
  ∧ needsManual (primaryWidth (children narrowLayout) (length (items abc))) = true
  ∧ calculateAndSetWidth unusedParseFloat abc narrowLayout abcCommitted
    = abcCommitted.
Proof.
  assert (Hm : needsManual (primaryWidth (children narrowLayout)
                              (length (items abc))) = true) by reflexivity.
  split; [reflexivity|]. split; [reflexivity|]. split; [exact Hm|].
  exact (proj1 (proj2 (unparsable_gap_publishes_nothing unusedParseFloat abc
           narrowLayout abcCommitted eq_refl eq_refl (or_intror Hm)))).
Defined.

(** ** A resize while a frame is pending *)

Section PendingFrame.

Variable parseFloat : string → JS.number.

Lemma paint_after_resize (p : InfiniteSliderProps) (l : Layout) (w : World)
    (fs : list Task) :
  frames w = TAddReadyClass :: fs →
  paint parseFloat l (handleResize p w)
  = setTimeout (TSetupAnimation p) 100
      (withClassList (λ c, c ∪ {[readyClass]})
         (withFrames (λ _, fs) (withClassList (λ c, c ∖ {[readyClass]}) w))).
Proof.
  intros Hf. unfold paint, handleResize. simpl. rewrite Hf. done.
Qed.

(** X20.  The handler of a resize cancels no animation frame.  When a
    resize arrives while no timer is pending and the frame requested by an
    earlier measurement is still waiting, the handler takes the ready
    class off, but that frame, run before the timers of the resize, puts
    it back with the parameters of the earlier layout, before anything has
    been measured again.  If the layout then yields no positive width, the
    two timers change nothing more: the track keeps the ready class
    together with the parameters of a layout that is gone. *)
Theorem pending_frame_survives_resize
    (p : InfiniteSliderProps) (l : Layout) (w : World) (fs : list Task) :
  timers w = [] → frames w = TAddReadyClass :: fs → children l ≠ [] →
  let w1 := paint parseFloat l (handleResize p w) in
  let w2 := tick parseFloat l (tick parseFloat l w1) in
  (readyClass ∉ classList (handleResize p w))
  ∧ frames (handleResize p w) = frames w
  ∧ readyClass ∈ classList w1
  ∧ style w1 = style w
  ∧ timers w1 = [(100%nat, TSetupAnimation p)]
  ∧ (JS.gt (halfTotalWidth parseFloat p l) 0%float = false →
     readyClass ∈ classList w2 ∧ style w2 = style w
     ∧ timers w2 = [] ∧ frames w2 = fs).
Proof.
  intros Ht Hf Hne w1 w2.
  set (w0 := withClassList (λ c, c ∪ {[readyClass]})
               (withFrames (λ _, fs)
                  (withClassList (λ c, c ∖ {[readyClass]}) w))).
  assert (H1 : w1 = setTimeout (TSetupAnimation p) 100 w0)
    by by apply paint_after_resize.
  assert (Ht0 : timers w0 = []) by done.
  split; [apply removed_class_absent|]. split; [done|].
  split; [rewrite H1; apply added_class_present|].
  split; [by rewrite H1|]. split; [by rewrite H1; simpl; rewrite Ht|].
  intros Hgt.
  assert (H2 : w2 = w0).
  { unfold w2. rewrite H1, tick_only_timer by done. cbn [fire].
    rewrite setupAnimation_with_children, tick_only_timer by done. cbn [fire].
    apply calculate_keeps. by right. }
  rewrite H2. split; [apply added_class_present|]. by repeat split.
Qed.

End PendingFrame.

Lemma pending_frame_survives_resize_witness :
  let w2 := tick parseZeroPx collapsedLayout
              (tick parseZeroPx collapsedLayout
                 (paint parseZeroPx collapsedLayout (handleResize abc abcMeasured))) in
  timers abcMeasured = [] ∧ frames abcMeasured = [TAddReadyClass]
  ∧ children collapsedLayout ≠ []
  ∧ JS.gt (halfTotalWidth parseZeroPx abc collapsedLayout) 0%float = false
  ∧ readyClass ∈ classList w2
  ∧ style w2 = style abcMeasured
  ∧ style abcMeasured !! "--total-width" = Some (Px 1200%float).
Proof.
  intros w2.
  assert (Hne : children collapsedLayout ≠ []) by done.
  destruct (pending_frame_survives_resize parseZeroPx abc collapsedLayout
              abcMeasured [] eq_refl eq_refl Hne)
    as (_ & _ & _ & _ & _ & Hstale).
  destruct (Hstale eq_refl) as (Hc & Hs & _).
  split; [reflexivity|]. split; [reflexivity|]. split; [exact Hne|].
  split; [reflexivity|]. split; [exact Hc|]. split; [exact Hs|].
  by vm_compute.
Defined.

(** ** Asset readiness *)

Section Readiness.

Variable parseFloat : string → JS.number.

Lemma fire_keeps_ready t l w : ready w → ready (fire parseFloat t l w).
Proof.
  unfold ready. intros H.
  destruct t; simpl; try done.
  - unfold setupAnimation. by destruct (Nat.eqb _ _).
  - unfold calculateAndSetWidth.
    destruct (Nat.eqb _ _); [done|]. by destruct (JS.gt _ _).
Qed.

Lemma onIntersection_keeps_ready k entries w :
  ready w → ready (onIntersection k entries w).
Proof.
  unfold onIntersection. revert w.
  induction entries as [|b entries IH]; intros w H; simpl; [done|].
  apply IH. by destruct b.
Qed.

Lemma step_keeps_ready w w' : step parseFloat w w' → ready w → ready w'.
Proof.
  intros Hs H. destruct Hs as
    [p w w' Hv|p h w w' Hg|p st h w|p st h l w|k entries w|k url ev w
    |i ms t q l w Hi Hq|l w|p w _|c w].
  - unfold validateItems in Hv. destruct (Nat.ltb _ _); [done|].
    by injection Hv as <-.
  - by destruct (visibilityGate_Completed p h w w' Hg) as [-> | [-> | ->]].
  - by apply preloadImages_keeps_ready.
  - unfold animationEffect.
    destruct (_ || _); [done|]. destruct (hasWindow h); simpl; [|done].
    unfold setupAnimation. by destruct (Nat.eqb _ _).
  - by apply onIntersection_keeps_ready.
  - rewrite imageSettled_checkAllLoaded. by apply checkAllLoaded_keeps_ready.
  - by apply fire_keeps_ready.
  - unfold paint. destruct (frames w) as [|t rest]; [done|].
    by apply fire_keeps_ready.
  - done.
  - done.
Qed.

(** X19.  Readiness never goes back from [true] to [false], whatever
    effects and events follow and in whatever order the pending timers
    run, a change of the items included.  A run of the preloading effect
    that starts with readiness [false] (the gate being active, in a
    browser) and then receives completions of distinct references of its
    own, and no event of another run, is ready exactly when every distinct
    reference has completed, [load] and [error] counting alike, and at
    once when there is no reference at all.  Earlier runs are not
    cancelled: when one of them lacks a single completion, its next event
    makes the component ready whatever the later run has loaded. *)
Theorem readiness_of_a_run
    (p : InfiniteSliderProps) (st : State) (h : Host) (w : World)
    (evs : list (string * ImageEvent)) :
  shouldLoad st = true → hasWindow h = true →
  imagesLoaded (hooks w) = false →
  NoDup evs.*1 → (∀ u, u ∈ evs.*1 → u ∈ imageUrls (items p)) →
  (∀ w1 w2, rtc (step parseFloat) w1 w2 → ready w1 → ready w2)
  ∧ (ready (settleAll (length (loaders w)) evs (preloadImages p st h w))
     ↔ ∀ u, u ∈ imageUrls (items p) → u ∈ evs.*1)
  ∧ (∀ k c u ev,
       loaders w !! k = Some {| totalImages := S c; loadedCount := c |} →
       ready (imageSettled k u ev (preloadImages p st h w))).
Proof.
  intros Hsl Hwin Hfalse Hnd Hsub. split.
  { intros w1 w2 Hrtc. induction Hrtc as [|x y z Hxy _ IH]; [done|].
    intros Hx. by eapply IH, step_keeps_ready. }
  split.
  { pose proof (imageUrls_NoDup (items p)) as Hurls.
    assert (Hle : (length evs ≤ length (imageUrls (items p)))%nat).
    { rewrite <- (length_fmap fst evs).
      by apply submseteq_length, NoDup_submseteq. }
    assert (Hall : (∀ u, u ∈ imageUrls (items p) → u ∈ evs.*1)
                   ↔ length (imageUrls (items p)) = length evs).
    { rewrite <- (length_fmap fst evs). split.
      - intros Hcov. apply Nat.le_antisymm.
        + by apply submseteq_length, NoDup_submseteq.
        + by apply submseteq_length, NoDup_submseteq.
      - intros Heq u Hu.
        assert (Hp : evs.*1 ≡ₚ imageUrls (items p)).
        { apply submseteq_length_Permutation; [by apply NoDup_submseteq | lia]. }
        by rewrite Hp. }
    rewrite Hall. unfold ready, preloadImages. rewrite Hsl, Hwin. simpl.
    destruct (Nat.eqb_spec (length (imageUrls (items p))) 0) as [H0|Hn0].
    - (* no reference at all *)
      assert (evs = []) as -> by (apply length_zero_iff_nil; lia).
      simpl. by rewrite H0.
    - erewrite settleAll_count;
        [|apply (list_lookup_middle (loaders w) [] _ (length (loaders w))); done].
      simpl. rewrite Hfalse. simpl. rewrite bool_decide_eq_true. lia. }
  intros k c u ev Hk. rewrite imageSettled_checkAllLoaded.
  assert (Hk' : loaders (preloadImages p st h w) !! k
                = Some {| totalImages := S c; loadedCount := c |}).
  { unfold preloadImages. rewrite Hsl, Hwin. simpl.
    destruct (Nat.eqb _ _); simpl; [done|].
    by apply lookup_app_l_Some. }
  destruct (checkAllLoaded_step k _ (S c) c Hk') as [_ Hr].
  unfold ready. rewrite Hr, Nat.eqb_refl. apply orb_true_r.
Qed.

End Readiness.

Lemma readiness_of_a_run_witness :
  let p := defaultProps [logoItem "/a.png"; logoItem "/b.png"; logoItem "/a.png"] in
  let evs := [("/b.png", onerror); ("/a.png", onload)] in
  shouldLoad activeState = true ∧ hasWindow browser = true
  ∧ imagesLoaded (hooks emptyWorld) = false
  ∧ NoDup evs.*1
  ∧ (∀ u, u ∈ evs.*1 → u ∈ imageUrls (items p))
  ∧ ready (settleAll 0 evs (preloadImages p activeState browser emptyWorld)).
Proof.
  intros p evs.
  assert (Hnd : NoDup evs.*1) by (apply (bool_decide_unpack _); vm_compute; exact I).
  assert (Hsub : ∀ u, u ∈ evs.*1 → u ∈ imageUrls (items p)).
  { apply Forall_forall. apply (bool_decide_unpack _). vm_compute. exact I. }
  assert (Hcov : ∀ u, u ∈ imageUrls (items p) → u ∈ evs.*1).
  { apply Forall_forall. apply (bool_decide_unpack _). vm_compute. exact I. }
  do 5 (split; [done|]).
  exact (proj2 (proj1 (proj2 (readiness_of_a_run unusedParseFloat p activeState
                         browser emptyWorld evs eq_refl eq_refl eq_refl Hnd Hsub)))
               Hcov).
Defined.
